(** * The Prisoner's Dilemma game of [pd_demo/pd_game.py]

    A shallow embedding of the strategies, the strategy registry, the move
    sanitiser [get_llm_move] and the match loop [play_match], followed by the
    session state machine that the specification describes for the
    participant-facing experiment, and the properties proved of both. *)

From stdpp Require Import base strings list gmap pretty.
From Stdlib Require Import Ascii ZArith Lia.

Local Open Scope Z_scope.

(** ** Python built-ins used by the source *)

Module Py.

(** Text is modelled as [string]; a character is a code point below 256.
    [str.isspace] on those code points: TAB..CR, FS..US, SPACE, NEL, NBSP. *)
Definition isspace (c : ascii) : bool :=
  let n := N_of_ascii c in
  ((9 <=? n) && (n <=? 13) || (28 <=? n) && (n <=? 32)
   || (n =? 133) || (n =? 160))%N.

Fixpoint lstrip (s : string) : string :=
  match s with
  | EmptyString => EmptyString
  | String c s' => if isspace c then lstrip s' else s
  end.

Definition rstrip (s : string) : string := String.rev (lstrip (String.rev s)).

(** [str.strip()] with no argument. *)
Definition strip (s : string) : string := rstrip (lstrip s).

(** [str.lower] on one code point below 256: A..Z and the upper-case
    Latin-1 letters (all of 192..222 but the multiplication sign). *)
Definition lower_char (c : ascii) : ascii :=
  let n := N_of_ascii c in
  if ((65 <=? n) && (n <=? 90)
      || (192 <=? n) && (n <=? 222) && negb (n =? 215))%N
  then ascii_of_N (n + 32) else c.

Fixpoint lower (s : string) : string :=
  match s with
  | EmptyString => EmptyString
  | String c s' => String (lower_char c) (lower s')
  end.

(** The line feed of the source's ["\n"]. *)
Definition NL : string := String (ascii_of_N 10) EmptyString.

(** [history[-k:]] for a positive [k]. *)
Definition last_k {A} (k : nat) (l : list A) : list A :=
  drop (length l - k)%nat l.

(** [enumerate(l)]. *)
Definition enumerate {A} (l : list A) : list (nat * A) := imap pair l.

(** The exceptions the source raises itself; [str(e)] is the message. *)
Inductive exn := ValueError (msg : string).

Definition str (e : exn) : string := match e with ValueError msg => msg end.

End Py.

(** ** Effects

    [get_llm_move] calls the chat-completion API and prints on failure;
    [play_match] raises.  The world records, in order, the prompts sent to the
    API and the lines printed; a computation returns a value or raises, and in
    both cases hands back the world as it left it. *)

Record world := World {
  api_log : list string;
  stdout : list string
}.

Inductive outcome (A : Type) :=
| Returns (a : A)
| Raises (e : Py.exn).
Arguments Returns {A} a.
Arguments Raises {A} e.

Definition M (A : Type) : Type := world → outcome A * world.

Definition ret {A} (a : A) : M A := λ w, (Returns a, w).

Definition bind {A B} (c : M A) (k : A → M B) : M B :=
  λ w, match c w with
       | (Returns a, w') => k a w'
       | (Raises e, w') => (Raises e, w')
       end.

Definition raise {A} (e : Py.exn) : M A := λ w, (Raises e, w).

(** [try: c except Exception as e: h e]. *)
Definition try_except {A} (c : M A) (h : Py.exn → M A) : M A :=
  λ w, match c w with
       | (Returns a, w') => (Returns a, w')
       | (Raises e, w') => h e w'
       end.

Definition print (line : string) : M unit :=
  λ w, (Returns tt, {| api_log := api_log w; stdout := stdout w ++ [line] |}).

Notation "'do' x <- c ; k" := (bind c (λ x, k))
  (at level 10, x name, c at level 100, k at level 200).

(** What one call of [openai.ChatCompletion.create(...)] followed by
    [response.choices[0].message.content] yields: the text of the reply, or an
    [Exception] raised anywhere inside the [try] block, with its message. *)
Inductive api_reply :=
| Content (text : string)
| ApiException (msg : string).

(** ** [pd_game.py] *)

(** [PDGame.__init__] stores the model and the temperature and refuses to
    build a game without an API key; the methods below are those of a game
    that exists. *)

Module PDGame.

Definition cooperate : string := "cooperate".
Definition defect : string := "defect".

(** The concrete subclasses of [Strategy]; the base class, whose
    [get_move] raises [NotImplementedError], is never in the registry. *)
Inductive Strategy := TitForTat | AlwaysDefect | AlwaysCooperate.

Definition name (s : Strategy) : string :=
  match s with
  | TitForTat => "TitForTat"
  | AlwaysDefect => "AlwaysDefect"
  | AlwaysCooperate => "AlwaysCooperate"
  end.

Definition get_move (s : Strategy) (history : list string) : string :=
  match s with
  | TitForTat =>
      match last history with
      | None => cooperate
      | Some m => m
      end
  | AlwaysDefect => defect
  | AlwaysCooperate => cooperate
  end.

Definition STRATEGIES : gmap string Strategy :=
  <["AlwaysCooperate" := AlwaysCooperate]>
    (<["AlwaysDefect" := AlwaysDefect]>
       (<["TitForTat" := TitForTat]> ∅)).

(** The [scores] dictionary: its two keys are fixed at creation. *)
Record Scores := { llm : Z; strategy : Z }.

Record MatchResult := {
  res_scores : Scores;
  res_history : list (string * string);
  res_strategy : string;
  res_turns : Z
}.

(** The prompt of [get_llm_move], lines 82 to 95. *)
Definition prompt_header : string :=
  "You are playing the Prisoner's Dilemma game. For each round, both players choose to either cooperate or defect."
    +:+ Py.NL +:+ Py.NL
    +:+ "Scoring:" +:+ Py.NL
    +:+ "- Both cooperate: 3 points each" +:+ Py.NL
    +:+ "- Both defect: 1 point each" +:+ Py.NL
    +:+ "- One defects, one cooperates: Defector gets 5, Cooperator gets 0"
    +:+ Py.NL +:+ Py.NL.

Definition round_num (history : list (string * string)) (i : nat) : nat :=
  (length history - length (Py.last_k 5 history) + i + 1)%nat.

Definition recent_moves (history : list (string * string)) : string :=
  foldl (λ prompt '(i, (my_move, opp_move)),
           prompt +:+ "Round " +:+ pretty (round_num history i)
             +:+ ": You " +:+ my_move +:+ ", Opponent " +:+ opp_move +:+ Py.NL)
        EmptyString (Py.enumerate (Py.last_k 5 history)).

Definition build_prompt (history : list (string * string)) : string :=
  prompt_header
    +:+ (match history with
         | [] => EmptyString
         | _ => "Recent moves:" +:+ Py.NL +:+ recent_moves history
         end)
    +:+ Py.NL
    +:+ "What is your next move? Answer with exactly one word: cooperate or defect".

(** Line 112: the reply is kept only when it is one of the two moves. *)
Definition sanitize (move : string) : string :=
  if bool_decide (move ∈ [cooperate; defect]) then move else cooperate.

(** Lines 148 to 158. *)
Definition update_scores (llm_move strategy_move : string) (scores : Scores)
  : Scores :=
  if bool_decide (llm_move = strategy_move ∧ strategy_move = cooperate) then
    {| llm := llm scores + 3; strategy := strategy scores + 3 |}
  else if bool_decide (llm_move = strategy_move ∧ strategy_move = defect) then
    {| llm := llm scores + 1; strategy := strategy scores + 1 |}
  else if bool_decide (llm_move = cooperate) then
    {| llm := llm scores; strategy := strategy scores + 5 |}
  else
    {| llm := llm scores + 5; strategy := strategy scores |}.

Section Game.

(** The behaviour of the API: the reply to the [n]-th call of a world,
    given the prompt.  Model and temperature are fixed per game. *)
Variable ChatCompletion_create : nat → string → api_reply.

Definition call_api (prompt : string) : M api_reply :=
  λ w, (Returns (ChatCompletion_create (length (api_log w)) prompt),
        {| api_log := api_log w ++ [prompt]; stdout := stdout w |}).

Definition get_llm_move (history : list (string * string)) : M string :=
  let prompt := build_prompt history in
  do reply <- call_api prompt;
  match reply with
  | Content text =>
      let move := Py.lower (Py.strip text) in
      ret (sanitize move)
  | ApiException msg =>
      do _ <- print ("Error getting LLM move: " +:+ msg);
      ret cooperate
  end.

(** Lines 129 to 137. *)
Definition create_strategy (strategy_name : string) : M Strategy :=
  try_except
    (match STRATEGIES !! strategy_name with
     | None =>
         raise (Py.ValueError
                  ("Strategy '" +:+ strategy_name +:+ "' not found"))
     | Some strategy_class => ret strategy_class
     end)
    (λ e, raise (Py.ValueError
                   ("Error creating strategy: " +:+ Py.str e))).

(** One pass through the body of the [for] loop. *)
Definition play_turn (strat : Strategy)
    (st : list (string * string) * Scores)
  : M (list (string * string) * Scores) :=
  let '(history, scores) := st in
  do llm_move <- get_llm_move history;
  let strategy_move := get_move strat (fst <$> history) in
  let scores := update_scores llm_move strategy_move scores in
  ret (history ++ [(llm_move, strategy_move)], scores).

Fixpoint play_turns (n : nat) (strat : Strategy)
    (st : list (string * string) * Scores)
  : M (list (string * string) * Scores) :=
  match n with
  | O => ret st
  | S n' => do st' <- play_turn strat st; play_turns n' strat st'
  end.

(** [range(turns)] is empty for [turns <= 0]. *)
Definition play_match (strategy_name : string) (turns : Z)
  : M MatchResult :=
  do strat <- create_strategy strategy_name;
  do st <- play_turns (Z.to_nat turns) strat
             ([], {| llm := 0; strategy := 0 |});
  ret {| res_scores := st.2; res_history := st.1;
         res_strategy := strategy_name; res_turns := turns |}.

End Game.

(** [list(STRATEGIES.keys())], in the order the literal lists them. *)
Definition get_available_strategies : list string :=
  ["TitForTat"; "AlwaysDefect"; "AlwaysCooperate"].

End PDGame.


(** ** Vocabulary of the statements about [pd_game.py] *)

(** The move [get_llm_move] derives from one reply (line 112 and line 116). *)
Definition decision_of (reply : api_reply) : string :=
  match reply with
  | Content text => PDGame.sanitize (Py.lower (Py.strip text))
  | ApiException _ => PDGame.cooperate
  end.

(** What [get_llm_move] leaves behind: the prompt is logged, and the [except]
    branch prints one line. *)
Definition world_after_call (history : list (string * string))
    (reply : api_reply) (w : world) : world :=
  {| api_log := api_log w ++ [PDGame.build_prompt history];
     stdout := match reply with
               | Content _ => stdout w
               | ApiException msg =>
                   stdout w ++ ["Error getting LLM move: " +:+ msg]
               end |}.

(** The points one round adds to each side: the scoring branches of
    [play_match] run on a zero score. *)
Definition payoff (llm_move strategy_move : string) : Z * Z :=
  let s := PDGame.update_scores llm_move strategy_move
             {| PDGame.llm := 0; PDGame.strategy := 0 |} in
  (PDGame.llm s, PDGame.strategy s).

Definition add_scores (s : PDGame.Scores) (p : Z * Z) : PDGame.Scores :=
  {| PDGame.llm := PDGame.llm s + p.1; PDGame.strategy := PDGame.strategy s + p.2 |}.

Definition sum_Z (l : list Z) : Z := foldr Z.add 0 l.

(** The strategy's reply to a history of pairs, line 146. *)
Definition strategy_move_on (strat : PDGame.Strategy)
    (history : list (string * string)) : string :=
  PDGame.get_move strat (fst <$> history).

(** The round numbers the prompt of [get_llm_move] prints, lines 91 and 92. *)
Definition prompt_round_nums (history : list (string * string)) : list nat :=
  (λ p, PDGame.round_num history p.1) <$> Py.enumerate (Py.last_k 5 history).

Definition zero_scores : PDGame.Scores :=
  {| PDGame.llm := 0; PDGame.strategy := 0 |}.

(** A fresh world, and an API that answers from a fixed list of texts and
    raises once the list is exhausted. *)
Definition w0 : world := {| api_log := []; stdout := [] |}.

Definition script (texts : list string) : nat → string → api_reply :=
  λ n _, match texts !! n with
         | Some t => Content t
         | None => ApiException "no reply"
         end.

(** The histories of the three-round scenario: participant cooperates,
    defects, cooperates against TitForTat. *)
Definition after_round1 : list (string * string) :=
  [(PDGame.cooperate, PDGame.cooperate)].
Definition after_round2 : list (string * string) :=
  after_round1 ++ [(PDGame.defect, PDGame.cooperate)].
Definition after_round3 : list (string * string) :=
  after_round2 ++ [(PDGame.cooperate, PDGame.defect)].

(** The error [play_match] raises for an identifier missing from
    [STRATEGIES]: the inner [ValueError] re-raised by the handler. *)
Definition unknown_strategy_error (strategy_name : string) : Py.exn :=
  Py.ValueError ("Error creating strategy: Strategy '"
                   +:+ strategy_name +:+ "' not found").

(** ** The session state machine of the specification

    The participant-facing experiment module ([process_decision] and its
    helpers) is exercised by [tests/test_prisoners_dilemma.py]; the machine
    below follows sections 3, 4.3, 4.4 and 6 of the specification. *)

Module Session.

Inductive decision := cooperate | defect.

(** Modelled from the spec: the enumerated decision set of section 4.1;
    any other input is not a decision. *)
Definition parse_decision (input : string) : option decision :=
  if bool_decide (input = "cooperate") then Some cooperate
  else if bool_decide (input = "defect") then Some defect
  else None.

(** Modelled from the spec: the Round Record of section 3. *)
Record round_record := {
  round_number : Z;
  participant_decision : decision;
  opponent_decision : decision;
  participant_score : Z;
  opponent_score : Z
}.

(** Modelled from the spec: the Result Record of section 3. *)
Record result_record := {
  aggregate_participant : Z;
  aggregate_opponent : Z;
  full_history : list round_record
}.

(** Modelled from the spec: the Opponent Policy variants of section 4.2. *)
Inductive policy := AlwaysCooperate | AlwaysDefect | TitForTat.

Definition get_move (p : policy) (opponent_initial : decision)
    (participant_history : list decision) : decision :=
  match p with
  | AlwaysCooperate => cooperate
  | AlwaysDefect => defect
  | TitForTat =>
      match last participant_history with
      | None => opponent_initial
      | Some d => d
      end
  end.

(** Modelled from the spec: the Experiment Configuration of section 3; a
    matrix given as a function supplies all four orderings. *)
Record config := {
  total_rounds : Z;
  payoff_matrix : decision → decision → Z * Z;
  opponent_strategy : string;
  opponent_initial : decision
}.

(** Modelled from the spec: the error taxonomy of section 7. *)
Inductive error :=
| InvalidDecision
| UnknownStrategy
| ExperimentNotFound
| SessionAlreadyComplete
| AlreadyStarted.

(** Modelled from the spec: the writes of the record store, section 6; the
    store is the list of the calls it received, oldest first. *)
Inductive store_call :=
| append_round (r : round_record)
| persist_result (r : result_record)
| mark_participant_complete (timestamp : Z).

(** Modelled from the spec: the Session State of section 3, together with
    the configuration and the policy resolved when the session started.  A
    session that has not started has no state. *)
Record session := {
  cfg : config;
  opponent : policy;
  round : Z;
  history : list round_record;
  last_opponent : option decision;
  completed : bool
}.

Definition sum_scores (f : round_record → Z) (h : list round_record) : Z :=
  foldr (λ r acc, f r + acc) 0 h.

Definition is_persist (c : store_call) : bool :=
  match c with persist_result _ => true | _ => false end.

(** The number of [persist_result] calls a store received. *)
Definition persist_count (db : list store_call) : nat :=
  length (filter (λ c, is_persist c = true) db).

(** Modelled from the spec: [start] of section 4.4, with the strategy
    identifier looked up, at session-start time, in the registry of
    opponent strategies built once at process start. *)
Definition start (registry : gmap string policy) (c : config)
    (current : option session) : error + session :=
  match current with
  | Some _ => inl AlreadyStarted
  | None =>
      match registry !! opponent_strategy c with
      | None => inl UnknownStrategy
      | Some p =>
          inr {| cfg := c; opponent := p; round := 1; history := [];
                 last_opponent := None; completed := false |}
      end
  end.

(** Modelled from the spec: the Round Processor of section 4.3.  It
    validates, derives the opponent's decision, computes the payoff and
    appends one record.  The advance of the counter is written once, in
    [submit_decision], where section 4.4 places it together with the
    decision on completion. *)
Definition process_round (s : session) (input : string)
  : error + round_record * session :=
  if completed s then inl SessionAlreadyComplete
  else
    match parse_decision input with
    | None => inl InvalidDecision
    | Some d =>
        let opp := get_move (opponent s) (opponent_initial (cfg s))
                     (participant_decision <$> history s) in
        let '(ps, os) := payoff_matrix (cfg s) d opp in
        let r := {| round_number := round s; participant_decision := d;
                    opponent_decision := opp; participant_score := ps;
                    opponent_score := os |} in
        inr (r, {| cfg := cfg s; opponent := opponent s; round := round s;
                   history := history s ++ [r];
                   last_opponent := Some opp; completed := false |})
    end.

(** Modelled from the spec: [submit_decision] of section 4.4.  The round
    is appended to the store; below the configured total the counter
    advances; at the total the result is persisted, the participant is
    marked complete and the session is [Completed].  The specification
    names no transition for a counter above the total (which [start]
    never produces for a total of at least one): the session then stays
    in progress and nothing is persisted. *)
Definition submit_decision (now : Z) (input : string)
    (s : session) (db : list store_call)
  : (error + round_record * bool) * session * list store_call :=
  match process_round s input with
  | inl e => (inl e, s, db)
  | inr (r, s1) =>
      let db1 := db ++ [append_round r] in
      if bool_decide (round s1 = total_rounds (cfg s1)) then
        let result :=
          {| aggregate_participant := sum_scores participant_score (history s1);
             aggregate_opponent := sum_scores opponent_score (history s1);
             full_history := history s1 |} in
        (inr (r, true),
         {| cfg := cfg s1; opponent := opponent s1; round := round s1;
            history := history s1; last_opponent := last_opponent s1;
            completed := true |},
         db1 ++ [persist_result result; mark_participant_complete now])
      else
        (inr (r, false),
         {| cfg := cfg s1; opponent := opponent s1; round := round s1 + 1;
            history := history s1; last_opponent := last_opponent s1;
            completed := false |},
         db1)
  end.

(** A sequence of requests, each a timestamp and the submitted text; a
    rejected request leaves session and store as [submit_decision]
    returned them. *)
Fixpoint submit_all (reqs : list (Z * string))
    (s : session) (db : list store_call) : session * list store_call :=
  match reqs with
  | [] => (s, db)
  | (now, input) :: rest =>
      let '(_, s', db') := submit_decision now input s db in
      submit_all rest s' db'
  end.

(** What holds of a session and its store however they were reached from
    [start] under configuration [c]: the counter is one ahead of the rounds
    played until completion, completion happens at the configured total,
    and the result was persisted once if the session is complete and not
    at all otherwise. *)
Definition reachable_inv (c : config) (s : session)
    (db : list store_call) : Prop :=
  cfg s = c
  ∧ round s = Z.of_nat (length (history s)) + (if completed s then 0 else 1)
  ∧ (completed s = true → round s = total_rounds c)
  ∧ (completed s = false → 1 ≤ total_rounds c → round s ≤ total_rounds c)
  ∧ persist_count db = (if completed s then 1 else 0)%nat.

Definition literal_matrix (p o : decision) : Z * Z :=
  match p, o with
  | cooperate, cooperate => (3, 3)
  | cooperate, defect => (0, 5)
  | defect, cooperate => (5, 0)
  | defect, defect => (1, 1)
  end.

Definition example_registry : gmap string policy :=
  <["TitForTat" := TitForTat]>
    (<["AlwaysDefect" := AlwaysDefect]>
       (<["AlwaysCooperate" := AlwaysCooperate]> ∅)).

Definition example_config : config :=
  {| total_rounds := 3; payoff_matrix := literal_matrix;
     opponent_strategy := "TitForTat"; opponent_initial := cooperate |}.

(** The three-round scenario: the session [start] yields for
    [example_config], and where three submissions leave it. *)
Definition example_started : session :=
  {| cfg := example_config; opponent := TitForTat; round := 1;
     history := []; last_opponent := None; completed := false |}.

Definition example_requests : list (Z * string) :=
  [(10, "cooperate"); (11, "defect"); (12, "cooperate")].

Definition example_finished : session * list store_call :=
  submit_all example_requests example_started [].

End Session.

(** ** The two models side by side *)

(** A decision of the session machine, spelled as [pd_game.py] spells its
    moves. *)
Definition decision_text (d : Session.decision) : string :=
  match d with
  | Session.cooperate => PDGame.cooperate
  | Session.defect => PDGame.defect
  end.

(** ** Vocabulary of the further statements about [pd_game.py] *)

(** The history and the scores one pass through the loop body of
    [play_match] yields for a given reply of the API. *)
Definition turn_result (strat : PDGame.Strategy)
    (st : list (string * string) * PDGame.Scores) (reply : api_reply)
  : list (string * string) * PDGame.Scores :=
  (st.1 ++ [(decision_of reply, strategy_move_on strat st.1)],
   PDGame.update_scores (decision_of reply) (strategy_move_on strat st.1) st.2).

(** How many records of a history have [m] as the move of the LLM. *)
Definition count_llm (m : string) (history : list (string * string)) : Z :=
  Z.of_nat (length (filter (λ rec, rec.1 = m) history)).

(** A text made of white space only. *)
Fixpoint all_space (s : string) : bool :=
  match s with
  | EmptyString => true
  | String c s' => Py.isspace c && all_space s'
  end.

(** ** [app/experiments/__init__.py]: the registry of experiment modules *)

Module Experiments.

(** The calls made to the module's [logger]. *)
Inductive log_call :=
| warning (msg : string)
| info (msg : string).

Definition is_warning (c : log_call) : bool :=
  match c with warning _ => true | info _ => false end.

Section Registry.

(** Python module objects. *)
Variable module : Type.

(** The module-level dictionary [_experiments] and the logger's record. *)
Record registry := {
  experiments : gmap string module;
  log : list log_call
}.

Definition register_experiment (experiment_type : string) (m : module)
    (st : registry) : registry :=
  let log1 :=
    if bool_decide (is_Some (experiments st !! experiment_type)) then
      log st ++ [warning ("Experiment type '" +:+ experiment_type
                            +:+ "' already registered. Overwriting.")]
    else log st in
  {| experiments := <[experiment_type := m]> (experiments st);
     log := log1 ++ [info ("Registered experiment module: "
                             +:+ experiment_type)] |}.

Definition get_available_experiments (st : registry) : gmap string module :=
  experiments st.

End Registry.

Arguments experiments {module} _.
Arguments log {module} _.
Arguments register_experiment {module} _ _ _.
Arguments get_available_experiments {module} _.

(** The registry at import time. *)
Definition initial {module : Type} : registry module :=
  {| experiments := ∅; log := [] |}.

(** A run of calls of [register_experiment], first call first. *)
Definition register_all {module : Type} (calls : list (string * module))
    (st : registry module) : registry module :=
  foldl (λ st call, register_experiment call.1 call.2 st) st calls.

(** How many warnings the logger received. *)
Definition warnings {module : Type} (st : registry module) : nat :=
  length (filter (λ c, is_warning c = true) (log st)).

End Experiments.


(** * Properties of [pd_game.py] *)

Section PDGameProperties.

Import PDGame.

Implicit Types (api : nat → string → api_reply) (w : world).
Implicit Types (history : list (string * string)) (scores : Scores).

(** *** The built-ins on examples *)

Example strip_lower_reply :
  Py.lower (Py.strip ("  " +:+ Py.NL +:+ "DeFect " +:+ Py.NL)) = "defect".
Proof. reflexivity. Qed.

Example strip_keeps_inner_space : Py.strip " co operate " = "co operate".
Proof. reflexivity. Qed.

Example last_five_round_numbers :
  prompt_round_nums (replicate 7 (cooperate, defect)) = [3; 4; 5; 6; 7]%nat.
Proof. reflexivity. Qed.

Example first_rounds_round_numbers :
  prompt_round_nums after_round3 = [1; 2; 3]%nat.
Proof. reflexivity. Qed.

(** *** The move sanitiser *)

Lemma sanitize_valid (move : string) : sanitize move ∈ [cooperate; defect].
Proof.
  unfold sanitize. case_bool_decide as Hin; [exact Hin|].
  apply list_elem_of_here.
Qed.

Lemma sanitize_keeps (move : string) :
  move ∈ [cooperate; defect] → sanitize move = move.
Proof. intros Hin. unfold sanitize. by rewrite bool_decide_eq_true_2. Qed.

Lemma sanitize_replaces (move : string) :
  move ∉ [cooperate; defect] → sanitize move = cooperate.
Proof. intros Hin. unfold sanitize. by rewrite bool_decide_eq_false_2. Qed.

Lemma decision_of_valid (reply : api_reply) :
  decision_of reply ∈ [cooperate; defect].
Proof.
  destruct reply as [text|msg]; simpl.
  - apply sanitize_valid.
  - apply list_elem_of_here.
Qed.

(** [get_llm_move] always returns: it sends one prompt, and its value is
    read off the reply. *)
Lemma get_llm_move_eq api history w :
  get_llm_move api history w =
    (Returns (decision_of (api (length (api_log w)) (build_prompt history))),
     world_after_call history
       (api (length (api_log w)) (build_prompt history)) w).
Proof.
  unfold get_llm_move, bind, call_api, world_after_call.
  destruct (api _ _) as [text|msg]; reflexivity.
Qed.

(** *** Scoring *)

Lemma update_scores_add (llm_move strategy_move : string) scores :
  update_scores llm_move strategy_move scores
  = add_scores scores (payoff llm_move strategy_move).
Proof.
  unfold payoff, update_scores, add_scores.
  repeat case_bool_decide; destruct scores; simpl; f_equal; lia.
Qed.

Lemma sum_Z_cons (x : Z) (l : list Z) : sum_Z (x :: l) = x + sum_Z l.
Proof. reflexivity. Qed.

Lemma sum_Z_app (l k : list Z) : sum_Z (l ++ k) = sum_Z l + sum_Z k.
Proof.
  induction l as [|x l IH]; [reflexivity|].
  change ((x :: l) ++ k) with (x :: (l ++ k)). rewrite !sum_Z_cons, IH. lia.
Qed.

(** *** One turn and the loop *)

Lemma play_turn_eq api strat history scores w :
  let reply := api (length (api_log w)) (build_prompt history) in
  play_turn api strat (history, scores) w =
    (Returns (history ++ [(decision_of reply, strategy_move_on strat history)],
              update_scores (decision_of reply)
                (strategy_move_on strat history) scores),
     world_after_call history reply w).
Proof.
  simpl. unfold play_turn, bind. rewrite get_llm_move_eq. reflexivity.
Qed.

Lemma play_turns_S api n strat st w :
  play_turns api (S n) strat st w =
    match play_turn api strat st w with
    | (Returns st', w') => play_turns api n strat st' w'
    | (Raises e, w') => (Raises e, w')
    end.
Proof. reflexivity. Qed.

(** The loop never raises; it appends one record per turn, sends one prompt
    per turn, and the scores grow by the payoffs of the appended records. *)
Lemma play_turns_spec api n strat :
  ∀ history scores w,
  ∃ suffix w',
    play_turns api n strat (history, scores) w
    = (Returns (history ++ suffix,
                add_scores scores
                  (sum_Z ((λ h, (payoff h.1 h.2).1) <$> suffix),
                   sum_Z ((λ h, (payoff h.1 h.2).2) <$> suffix))), w')
    ∧ length suffix = n
    ∧ length (api_log w') = (length (api_log w) + n)%nat.
Proof.
  induction n as [|n IH]; intros history scores w.
  - exists [], w. simpl. unfold ret, add_scores. destruct scores; simpl.
    rewrite app_nil_r, !Z.add_0_r. repeat split; lia.
  - rewrite play_turns_S, play_turn_eq.
    set (reply := api _ _).
    set (rec := (decision_of reply, strategy_move_on strat history)).
    destruct (IH (history ++ [rec])
                (update_scores (decision_of reply)
                   (strategy_move_on strat history) scores)
                (world_after_call history reply w))
      as (suffix & w' & Hrun & Hlen & Hlog).
    exists (rec :: suffix), w'. split; [|split].
    + rewrite Hrun. do 3 f_equal.
      * by rewrite <- app_assoc.
      * rewrite update_scores_add, !fmap_cons, !sum_Z_cons.
        unfold add_scores, rec. cbn [llm strategy fst snd]. f_equal; lia.
    + simpl. lia.
    + rewrite Hlog. unfold world_after_call. simpl.
      rewrite length_app. simpl. lia.
Qed.

Lemma play_turns_add api a b strat st w :
  play_turns api (a + b) strat st w =
    match play_turns api a strat st w with
    | (Returns st', w') => play_turns api b strat st' w'
    | (Raises e, w') => (Raises e, w')
    end.
Proof.
  revert st w. induction a as [|a IH]; intros st w; [reflexivity|].
  change (S a + b)%nat with (S (a + b)). rewrite !play_turns_S.
  destruct (play_turn api strat st w) as [[st'|e] w']; [apply IH|reflexivity].
Qed.

(** *** The registry *)

Lemma create_strategy_known (strategy_name : string) strat w :
  STRATEGIES !! strategy_name = Some strat →
  create_strategy strategy_name w = (Returns strat, w).
Proof. intros H. unfold create_strategy, try_except. by rewrite H. Qed.

Lemma create_strategy_unknown (strategy_name : string) w :
  STRATEGIES !! strategy_name = None →
  create_strategy strategy_name w =
    (Raises (unknown_strategy_error strategy_name), w).
Proof. intros H. unfold create_strategy, try_except. by rewrite H. Qed.

Lemma STRATEGIES_names (strategy_name : string) :
  is_Some (STRATEGIES !! strategy_name)
  ↔ strategy_name ∈ get_available_strategies.
Proof.
  unfold STRATEGIES, get_available_strategies. split.
  - intros [strat H].
    rewrite !lookup_insert in H. rewrite lookup_empty in H.
    repeat case_decide; subst; try discriminate; set_solver.
  - intros H. rewrite !elem_of_cons in H.
    destruct H as [->|[->|[->|H]]]; [by vm_compute; eauto..|].
    by apply elem_of_nil in H.
Qed.

Lemma play_match_known api (strategy_name : string) strat turns w :
  STRATEGIES !! strategy_name = Some strat →
  play_match api strategy_name turns w =
    match play_turns api (Z.to_nat turns) strat ([], zero_scores) w with
    | (Returns st, w') =>
        (Returns {| res_scores := st.2; res_history := st.1;
                    res_strategy := strategy_name; res_turns := turns |}, w')
    | (Raises e, w') => (Raises e, w')
    end.
Proof.
  intros H. unfold play_match, bind.
  rewrite (create_strategy_known _ _ _ H). reflexivity.
Qed.

(** *** The payoff matrix *)

(** C1: for each of the four pairs of decisions (participant, opponent) the
    scoring branches of [play_match] add exactly the entry of the literal
    matrix, (3,3), (0,5), (5,0), (1,1); a turn is a function of its inputs,
    and beyond the call of [get_llm_move] it changes nothing but the scores
    and the history it appends to. *)
Theorem payoff_matches_literal_matrix api strat history scores w :
  update_scores cooperate cooperate scores
    = {| llm := llm scores + 3; strategy := strategy scores + 3 |}
  ∧ update_scores cooperate defect scores
    = {| llm := llm scores + 0; strategy := strategy scores + 5 |}
  ∧ update_scores defect cooperate scores
    = {| llm := llm scores + 5; strategy := strategy scores + 0 |}
  ∧ update_scores defect defect scores
    = {| llm := llm scores + 1; strategy := strategy scores + 1 |}
  ∧ ∃ llm_move,
      get_llm_move api history w
        = (Returns llm_move,
           world_after_call history
             (api (length (api_log w)) (build_prompt history)) w)
      ∧ play_turn api strat (history, scores) w
        = (Returns (history ++ [(llm_move, strategy_move_on strat history)],
                    add_scores scores
                      (payoff llm_move (strategy_move_on strat history))),
           world_after_call history
             (api (length (api_log w)) (build_prompt history)) w).
Proof.
  repeat split; try (rewrite update_scores_add; reflexivity).
  eexists. split; [apply get_llm_move_eq|].
  rewrite <- update_scores_add. apply play_turn_eq.
Qed.

(** *** TitForTat *)

Lemma tit_for_tat_last (past : list string) (m : string) :
  get_move TitForTat (past ++ [m]) = m.
Proof. simpl. by rewrite last_snoc. Qed.

(** C2: TitForTat answers an empty history with the initial decision and
    any other history with the participant's immediately preceding decision,
    and its answer depends on the participant's moves alone.  In
    [pd_game.py] the initial decision is the default, [cooperate], the one
    value this code has for it: an empty history gets [cooperate], a history
    gets its last participant move, and two histories with the same
    participant moves get the same answer whatever the opponent's own moves
    were.  Where the initial decision is a setting (the policy of the
    experiment configuration), an empty history gets the configured
    [opponent_initial], whichever it is, a history gets its last decision,
    and at the default setting that policy answers every history as
    [pd_game.py]'s TitForTat does. *)
Theorem tit_for_tat_reacts_to_participant
    (h1 h2 : list (string * string)) (past : list string) (m : string)
    (opponent_initial d : Session.decision)
    (decisions : list Session.decision) :
  h1.*1 = h2.*1 →
  get_move TitForTat [] = cooperate
  ∧ get_move TitForTat (past ++ [m]) = m
  ∧ strategy_move_on TitForTat (h1 ++ [(m, cooperate)]) = m
  ∧ strategy_move_on TitForTat h1 = strategy_move_on TitForTat h2
  ∧ Session.get_move Session.TitForTat opponent_initial [] = opponent_initial
  ∧ Session.get_move Session.TitForTat opponent_initial (decisions ++ [d]) = d
  ∧ decision_text (Session.get_move Session.TitForTat Session.cooperate decisions)
    = get_move TitForTat (decision_text <$> decisions).
Proof.
  intros Hsame. split; [reflexivity|]. split; [apply tit_for_tat_last|].
  split; [|split; [|split; [|split]]].
  - unfold strategy_move_on. rewrite fmap_app. apply tit_for_tat_last.
  - unfold strategy_move_on. by rewrite Hsame.
  - reflexivity.
  - simpl. by rewrite last_snoc.
  - simpl. rewrite fmap_last. by destruct (last decisions).
Qed.

Lemma tit_for_tat_reacts_to_participant_witness :
  [("defect", "cooperate"); ("cooperate", "defect")].*1
    = [("defect", "defect"); ("cooperate", "cooperate")].*1
  ∧ get_move TitForTat [] = cooperate
  ∧ get_move TitForTat (["cooperate"] ++ ["defect"]) = "defect"
  ∧ strategy_move_on TitForTat
      ([("defect", "cooperate"); ("cooperate", "defect")]
         ++ [("defect", cooperate)]) = "defect"
  ∧ strategy_move_on TitForTat [("defect", "cooperate"); ("cooperate", "defect")]
    = strategy_move_on TitForTat [("defect", "defect"); ("cooperate", "cooperate")]
  ∧ Session.get_move Session.TitForTat Session.defect [] = Session.defect
  ∧ Session.get_move Session.TitForTat Session.defect
      ([Session.defect] ++ [Session.cooperate]) = Session.cooperate
  ∧ decision_text
      (Session.get_move Session.TitForTat Session.cooperate [Session.defect])
    = get_move TitForTat (decision_text <$> [Session.defect]).
Proof.
  split; [reflexivity|].
  apply (tit_for_tat_reacts_to_participant
           [("defect", "cooperate"); ("cooperate", "defect")]
           [("defect", "defect"); ("cooperate", "cooperate")]
           ["cooperate"] "defect"
           Session.defect Session.cooperate [Session.defect]).
  reflexivity.
Defined.

(** *** The three-round scenario *)

Lemma length_log_after_call history reply w :
  length (api_log (world_after_call history reply w))
  = (length (api_log w) + 1)%nat.
Proof. unfold world_after_call. simpl. rewrite length_app. reflexivity. Qed.

(** C3: against TitForTat, when the participant's three decisions are
    cooperate, defect, cooperate, the opponent plays cooperate, cooperate,
    defect; the rounds pay (3,3), (5,0), (0,5); the match ends after the
    third round, three prompts having been sent, with 8 points a side. *)
Theorem tit_for_tat_three_rounds api w :
  decision_of (api (length (api_log w)) (build_prompt [])) = cooperate →
  decision_of (api (length (api_log w) + 1)%nat (build_prompt after_round1))
    = defect →
  decision_of (api (length (api_log w) + 1 + 1)%nat (build_prompt after_round2))
    = cooperate →
  (∃ w1, play_turns api 1 TitForTat ([], zero_scores) w
         = (Returns (after_round1, {| llm := 3; strategy := 3 |}), w1))
  ∧ (∃ w2, play_turns api 2 TitForTat ([], zero_scores) w
           = (Returns (after_round2, {| llm := 8; strategy := 3 |}), w2))
  ∧ (∃ w3, play_turns api 3 TitForTat ([], zero_scores) w
           = (Returns (after_round3, {| llm := 8; strategy := 8 |}), w3))
  ∧ payoff cooperate cooperate = (3, 3)
  ∧ payoff defect cooperate = (5, 0)
  ∧ payoff cooperate defect = (0, 5)
  ∧ ∃ w', play_match api "TitForTat" 3 w
          = (Returns {| res_scores := {| llm := 8; strategy := 8 |};
                        res_history := after_round3;
                        res_strategy := "TitForTat"; res_turns := 3 |}, w')
          ∧ length (api_log w') = (length (api_log w) + 3)%nat.
Proof.
  intros H1 H2 H3.
  assert (T1 : play_turn api TitForTat ([], zero_scores) w
               = (Returns (after_round1, {| llm := 3; strategy := 3 |}),
                  world_after_call []
                    (api (length (api_log w)) (build_prompt [])) w)).
  { rewrite play_turn_eq, H1. reflexivity. }
  set (w1 := world_after_call [] _ w) in T1.
  assert (T2 : play_turn api TitForTat
                 (after_round1, {| llm := 3; strategy := 3 |}) w1
               = (Returns (after_round2, {| llm := 8; strategy := 3 |}),
                  world_after_call after_round1
                    (api (length (api_log w1)) (build_prompt after_round1))
                    w1)).
  { rewrite play_turn_eq. unfold w1 at 1 2.
    rewrite length_log_after_call, H2. reflexivity. }
  set (w2 := world_after_call after_round1 _ w1) in T2.
  assert (T3 : play_turn api TitForTat
                 (after_round2, {| llm := 8; strategy := 3 |}) w2
               = (Returns (after_round3, {| llm := 8; strategy := 8 |}),
                  world_after_call after_round2
                    (api (length (api_log w2)) (build_prompt after_round2))
                    w2)).
  { rewrite play_turn_eq. unfold w2 at 1 2.
    rewrite length_log_after_call. unfold w1 at 1 2.
    rewrite length_log_after_call, H3. reflexivity. }
  set (w3 := world_after_call after_round2 _ w2) in T3.
  assert (R1 : play_turns api 1 TitForTat ([], zero_scores) w
               = (Returns (after_round1, {| llm := 3; strategy := 3 |}), w1)).
  { rewrite play_turns_S, T1. reflexivity. }
  assert (R2 : play_turns api 2 TitForTat ([], zero_scores) w
               = (Returns (after_round2, {| llm := 8; strategy := 3 |}), w2)).
  { rewrite play_turns_S, T1, play_turns_S, T2. reflexivity. }
  assert (R3 : play_turns api 3 TitForTat ([], zero_scores) w
               = (Returns (after_round3, {| llm := 8; strategy := 8 |}), w3)).
  { rewrite play_turns_S, T1, play_turns_S, T2, play_turns_S, T3.
    reflexivity. }
  split; [by exists w1|]. split; [by exists w2|]. split; [by exists w3|].
  do 3 (split; [reflexivity|]).
  exists w3. split.
  - rewrite (play_match_known api "TitForTat" TitForTat 3 w eq_refl).
    change (Z.to_nat 3) with 3%nat. rewrite R3. reflexivity.
  - unfold w3, w2, w1. rewrite !length_log_after_call. lia.
Qed.

Lemma tit_for_tat_three_rounds_witness :
  decision_of (script ["cooperate"; " Defect "; "COOPERATE"]
                 (length (api_log w0)) (build_prompt [])) = cooperate
  ∧ decision_of (script ["cooperate"; " Defect "; "COOPERATE"]
                   (length (api_log w0) + 1)%nat (build_prompt after_round1))
    = defect
  ∧ decision_of (script ["cooperate"; " Defect "; "COOPERATE"]
                   (length (api_log w0) + 1 + 1)%nat
                   (build_prompt after_round2))
    = cooperate
  ∧ ∃ w', play_match (script ["cooperate"; " Defect "; "COOPERATE"])
            "TitForTat" 3 w0
          = (Returns {| res_scores := {| llm := 8; strategy := 8 |};
                        res_history := after_round3;
                        res_strategy := "TitForTat"; res_turns := 3 |}, w')
          ∧ length (api_log w') = (length (api_log w0) + 3)%nat.
Proof.
  do 3 (split; [reflexivity|]).
  apply (tit_for_tat_three_rounds
           (script ["cooperate"; " Defect "; "COOPERATE"]) w0);
    reflexivity.
Defined.

(** *** Replies that are not a decision *)

(** C5 (as stated) fails: the reply [maybe] is not rejected.  The match of
    one turn returns normally, with a record for the round in its history
    and the points of a mutual cooperation; and the scoring branches, given
    [maybe] directly, score it through their last branch. *)
Lemma invalid_reply_is_not_rejected :
  ("maybe" ∉ [cooperate; defect])
  ∧ play_match (script ["maybe"]) "TitForTat" 1 w0
    = (Returns {| res_scores := {| llm := 3; strategy := 3 |};
                  res_history := [(cooperate, cooperate)];
                  res_strategy := "TitForTat"; res_turns := 1 |},
       {| api_log := [build_prompt []]; stdout := [] |})
  ∧ (¬ ∃ e w', play_match (script ["maybe"]) "TitForTat" 1 w0
               = (Raises e, w'))
  ∧ update_scores "maybe" cooperate zero_scores
    = {| llm := 5; strategy := 0 |}.
Proof.
  split; [|split; [reflexivity|split; [|reflexivity]]].
  - rewrite !not_elem_of_cons. repeat split; try discriminate.
    apply not_elem_of_nil.
  - intros (e & w' & Hraise). discriminate Hraise.
Qed.

(** C5 (as amended): a reply whose text, stripped and lower-cased, is
    neither [cooperate] nor [defect] raises nothing: [get_llm_move] returns
    [cooperate] in its place, and the turn is played with it, appending the
    record of the round and updating the scores. *)
Theorem invalid_reply_played_as_cooperate
    api strat history scores w (text : string) :
  api (length (api_log w)) (build_prompt history) = Content text →
  Py.lower (Py.strip text) ∉ [cooperate; defect] →
  get_llm_move api history w
    = (Returns cooperate,
       {| api_log := api_log w ++ [build_prompt history];
          stdout := stdout w |})
  ∧ play_turn api strat (history, scores) w
    = (Returns (history ++ [(cooperate, strategy_move_on strat history)],
                update_scores cooperate (strategy_move_on strat history)
                  scores),
       {| api_log := api_log w ++ [build_prompt history];
          stdout := stdout w |}).
Proof.
  intros Hreply Hbad.
  rewrite play_turn_eq, get_llm_move_eq, Hreply. simpl.
  rewrite (sanitize_replaces _ Hbad). split; reflexivity.
Qed.

Lemma invalid_reply_played_as_cooperate_witness :
  script [" Maybe "] (length (api_log w0)) (build_prompt []) = Content " Maybe "
  ∧ (Py.lower (Py.strip " Maybe ") ∉ [cooperate; defect])
  ∧ get_llm_move (script [" Maybe "]) [] w0
    = (Returns cooperate,
       {| api_log := api_log w0 ++ [build_prompt []]; stdout := stdout w0 |})
  ∧ play_turn (script [" Maybe "]) AlwaysDefect ([], zero_scores) w0
    = (Returns ([] ++ [(cooperate, strategy_move_on AlwaysDefect [])],
                update_scores cooperate (strategy_move_on AlwaysDefect [])
                  zero_scores),
       {| api_log := api_log w0 ++ [build_prompt []]; stdout := stdout w0 |}).
Proof.
  assert (Hbad : Py.lower (Py.strip " Maybe ") ∉ [cooperate; defect]).
  { rewrite !not_elem_of_cons. repeat split; try discriminate.
    apply not_elem_of_nil. }
  split; [reflexivity|]. split; [exact Hbad|].
  apply (invalid_reply_played_as_cooperate
           (script [" Maybe "]) AlwaysDefect [] zero_scores w0 " Maybe ");
    [reflexivity|exact Hbad].
Defined.

(** *** Unknown and registered strategies *)

(** C6: for an identifier that is not a key of [STRATEGIES], [play_match]
    raises the error of the strategy lookup before the first turn: whatever
    the API and the number of turns, the world is handed back untouched (no
    prompt sent, nothing printed) and no result, hence no history and no
    scores, is produced; for a registered identifier it returns a result. *)
Theorem unknown_strategy_fails_at_start api (strategy_name : string) turns w :
  match STRATEGIES !! strategy_name with
  | None =>
      play_match api strategy_name turns w
      = (Raises (unknown_strategy_error strategy_name), w)
  | Some strat =>
      ∃ r w', play_match api strategy_name turns w = (Returns r, w')
  end.
Proof.
  destruct (STRATEGIES !! strategy_name) as [strat|] eqn:Hreg.
  - rewrite (play_match_known _ _ _ _ _ Hreg).
    destruct (play_turns_spec api (Z.to_nat turns) strat [] zero_scores w)
      as (suffix & w' & Hrun & _).
    rewrite Hrun. eauto.
  - unfold play_match, bind.
    rewrite (create_strategy_unknown _ _ Hreg). reflexivity.
Qed.

(** *** Scores against history *)

(** C8: the scores a match returns are, side by side, the sums over the
    returned history of the payoff of each round. *)
Theorem scores_are_sum_of_payoffs api (strategy_name : string) turns w r w' :
  play_match api strategy_name turns w = (Returns r, w') →
  llm (res_scores r)
    = sum_Z ((λ h, (payoff h.1 h.2).1) <$> res_history r)
  ∧ strategy (res_scores r)
    = sum_Z ((λ h, (payoff h.1 h.2).2) <$> res_history r).
Proof.
  intros Hrun.
  destruct (STRATEGIES !! strategy_name) as [strat|] eqn:Hreg.
  - rewrite (play_match_known _ _ _ _ _ Hreg) in Hrun.
    destruct (play_turns_spec api (Z.to_nat turns) strat [] zero_scores w)
      as (suffix & w1 & Hturns & _).
    rewrite Hturns in Hrun. injection Hrun as <- _. simpl. split; lia.
  - unfold play_match, bind in Hrun.
    rewrite (create_strategy_unknown _ _ Hreg) in Hrun. discriminate.
Qed.

Lemma scores_are_sum_of_payoffs_witness :
  play_match (script ["defect"; "oops"; "cooperate"]) "AlwaysDefect" 4 w0
    = (Returns {| res_scores := {| llm := 1; strategy := 16 |};
                  res_history := [(defect, defect); (cooperate, defect);
                                  (cooperate, defect); (cooperate, defect)];
                  res_strategy := "AlwaysDefect"; res_turns := 4 |},
       {| api_log := [build_prompt [];
                      build_prompt [(defect, defect)];
                      build_prompt [(defect, defect); (cooperate, defect)];
                      build_prompt [(defect, defect); (cooperate, defect);
                                    (cooperate, defect)]];
          stdout := ["Error getting LLM move: no reply"] |})
  ∧ 1 = sum_Z ((λ h, (payoff h.1 h.2).1)
                 <$> [(defect, defect); (cooperate, defect);
                      (cooperate, defect); (cooperate, defect)])
  ∧ 16 = sum_Z ((λ h, (payoff h.1 h.2).2)
                  <$> [(defect, defect); (cooperate, defect);
                       (cooperate, defect); (cooperate, defect)]).
Proof.
  split; [reflexivity|].
  exact (scores_are_sum_of_payoffs
           (script ["defect"; "oops"; "cooperate"]) "AlwaysDefect" 4 w0
           _ _ eq_refl).
Defined.

(** *** The sanitised move *)

(** C9: whatever the API does (any text, or an exception), [get_llm_move]
    returns, and what it returns is [cooperate] or [defect]: the stripped,
    lower-cased text when that is one of the two, [cooperate] otherwise and
    on an exception. *)
Theorem get_llm_move_returns_valid_move api history w :
  ∃ move w',
    get_llm_move api history w = (Returns move, w')
    ∧ move ∈ [cooperate; defect]
    ∧ match api (length (api_log w)) (build_prompt history) with
      | Content text =>
          move = if bool_decide (Py.lower (Py.strip text) ∈ [cooperate; defect])
                 then Py.lower (Py.strip text) else cooperate
      | ApiException _ => move = cooperate
      end.
Proof.
  eexists _, _. split; [apply get_llm_move_eq|].
  split; [apply decision_of_valid|].
  destruct (api _ _) as [text|msg]; reflexivity.
Qed.

(** *** Matches of no turn *)

(** C10: with a registered strategy and [turns <= 0] the match returns at
    once: empty history, zero scores on both sides, world untouched. *)
Theorem no_turns_no_rounds api (strategy_name : string) strat turns w :
  turns ≤ 0 →
  STRATEGIES !! strategy_name = Some strat →
  play_match api strategy_name turns w
  = (Returns {| res_scores := {| llm := 0; strategy := 0 |};
                res_history := [];
                res_strategy := strategy_name; res_turns := turns |}, w).
Proof.
  intros Hturns Hreg. rewrite (play_match_known _ _ _ _ _ Hreg).
  replace (Z.to_nat turns) with 0%nat by lia. reflexivity.
Qed.

Lemma no_turns_no_rounds_witness :
  -2 ≤ 0
  ∧ STRATEGIES !! "AlwaysCooperate" = Some AlwaysCooperate
  ∧ play_match (script ["defect"]) "AlwaysCooperate" (-2) w0
    = (Returns {| res_scores := {| llm := 0; strategy := 0 |};
                  res_history := [];
                  res_strategy := "AlwaysCooperate"; res_turns := -2 |}, w0).
Proof.
  split; [lia|]. split; [reflexivity|].
  apply (no_turns_no_rounds (script ["defect"]) "AlwaysCooperate"
           AlwaysCooperate (-2) w0); [lia|reflexivity].
Defined.

(** *** Length and order of the history *)

Lemma round_num_position history (i : nat) :
  (i < length (Py.last_k 5 history))%nat →
  (round_num history i - 1 = length history - 5 + i)%nat
  ∧ (1 ≤ round_num history i ≤ length history)%nat.
Proof.
  unfold round_num, Py.last_k. rewrite length_drop. lia.
Qed.

(** The number the prompt prints beside a record is the position of that
    record in the history, counted from one. *)
Lemma round_num_labels_position history (i : nat) (rec : string * string) :
  Py.last_k 5 history !! i = Some rec →
  history !! (round_num history i - 1)%nat = Some rec
  ∧ (1 ≤ round_num history i ≤ length history)%nat.
Proof.
  intros Hrec.
  destruct (round_num_position history i) as [Hpos Hrange].
  { by eapply lookup_lt_Some. }
  split; [|exact Hrange].
  rewrite Hpos. unfold Py.last_k in Hrec. by rewrite lookup_drop in Hrec.
Qed.

Lemma prompt_round_nums_seq history :
  prompt_round_nums history
  = seq (length history - length (Py.last_k 5 history) + 1)
        (length (Py.last_k 5 history)).
Proof.
  apply list_eq. intros i. unfold prompt_round_nums, Py.enumerate.
  rewrite list_lookup_fmap, list_lookup_imap.
  destruct (Py.last_k 5 history !! i) as [rec|] eqn:Hrec; simpl.
  - rewrite lookup_seq_lt by (by eapply lookup_lt_Some).
    unfold round_num. f_equal. lia.
  - rewrite lookup_seq_ge; [reflexivity|]. by apply lookup_ge_None.
Qed.

Lemma play_turns_prefix api (N k : nat) strat w :
  (k ≤ N)%nat →
  ∃ hN scN wN sck wk,
    play_turns api N strat ([], zero_scores) w = (Returns (hN, scN), wN)
    ∧ play_turns api k strat ([], zero_scores) w
      = (Returns (take k hN, sck), wk).
Proof.
  intros Hk.
  destruct (play_turns_spec api k strat [] zero_scores w)
    as (s1 & w1 & Hrun1 & Hlen1 & _).
  destruct (play_turns_spec api (N - k) strat ([] ++ s1)
              (add_scores zero_scores
                 (sum_Z ((λ h, (payoff h.1 h.2).1) <$> s1),
                  sum_Z ((λ h, (payoff h.1 h.2).2) <$> s1))) w1)
    as (s2 & w2 & Hrun2 & _).
  eexists _, _, _, _, _. split.
  - replace N with (k + (N - k))%nat at 1 by lia.
    rewrite play_turns_add, Hrun1. exact Hrun2.
  - rewrite Hrun1. do 3 f_equal. simpl.
    symmetry. by apply take_app_length'.
Qed.

(** C7: a match of [N] turns with a registered strategy returns a history
    of exactly [N] records after exactly [N] calls of [get_llm_move]; the
    history after [k] turns is the first [k] records of the final one, so
    the record of round [k] sits at position [k], rounds being numbered
    1, 2, ..., [N] in that order; and the round numbers the prompt prints
    for the returned history are consecutive and label each record with
    its position. *)
Theorem history_has_one_record_per_round
    api (strategy_name : string) strat (N : nat) w :
  STRATEGIES !! strategy_name = Some strat →
  ∃ r w',
    play_match api strategy_name (Z.of_nat N) w = (Returns r, w')
    ∧ length (res_history r) = N
    ∧ length (api_log w') = (length (api_log w) + N)%nat
    ∧ (∀ k, (k ≤ N)%nat →
         ∃ sc wk, play_turns api k strat ([], zero_scores) w
                  = (Returns (take k (res_history r), sc), wk))
    ∧ (∀ i rec, Py.last_k 5 (res_history r) !! i = Some rec →
         res_history r !! (round_num (res_history r) i - 1)%nat = Some rec
         ∧ (1 ≤ round_num (res_history r) i ≤ N)%nat)
    ∧ prompt_round_nums (res_history r)
      = seq (N - length (Py.last_k 5 (res_history r)) + 1)
            (length (Py.last_k 5 (res_history r))).
Proof.
  intros Hreg.
  destruct (play_turns_spec api N strat [] zero_scores w)
    as (suffix & w' & Hrun & Hlen & Hlog).
  eexists _, w'. split.
  { rewrite (play_match_known _ _ _ _ _ Hreg), Nat2Z.id, Hrun. reflexivity. }
  simpl. split; [exact Hlen|]. split; [exact Hlog|]. split; [|split].
  - intros k Hk.
    destruct (play_turns_prefix api N k strat w Hk)
      as (hN & scN & wN & sck & wk & HN & Hprefix).
    rewrite Hrun in HN. injection HN as <- _ _. eauto.
  - intros i rec Hrec.
    destruct (round_num_labels_position _ _ _ Hrec) as [Hpos Hrange].
    split; [exact Hpos|lia].
  - rewrite prompt_round_nums_seq. by rewrite Hlen.
Qed.

Lemma history_has_one_record_per_round_witness :
  STRATEGIES !! "TitForTat" = Some TitForTat
  ∧ ∃ r w',
      play_match (script ["defect"; "defect"]) "TitForTat" (Z.of_nat 7) w0
      = (Returns r, w')
      ∧ length (res_history r) = 7%nat.
Proof.
  split; [reflexivity|].
  destruct (history_has_one_record_per_round
              (script ["defect"; "defect"]) "TitForTat" TitForTat 7 w0
              eq_refl) as (r & w' & Hrun & Hlen & _).
  exists r, w'. split; [exact Hrun|exact Hlen].
Defined.

End PDGameProperties.

(** * Properties of the session state machine *)

Section SessionProperties.

Import Session.

Implicit Types (s : session) (db : list store_call) (c : config).

Lemma persist_count_app db1 db2 :
  persist_count (db1 ++ db2) = (persist_count db1 + persist_count db2)%nat.
Proof. unfold persist_count. by rewrite filter_app, length_app. Qed.

Lemma process_round_completed s (input : string) :
  completed s = true → process_round s input = inl SessionAlreadyComplete.
Proof. intros H. unfold process_round. by rewrite H. Qed.

Lemma submit_decision_completed (now : Z) (input : string) s db :
  completed s = true →
  submit_decision now input s db = (inl SessionAlreadyComplete, s, db).
Proof.
  intros H. unfold submit_decision. by rewrite process_round_completed.
Qed.

Lemma submit_all_completed (reqs : list (Z * string)) s db :
  completed s = true → submit_all reqs s db = (s, db).
Proof.
  intros H. induction reqs as [|[now input] reqs IH]; [reflexivity|].
  simpl. by rewrite submit_decision_completed.
Qed.

(** On the session machine a text outside the decision set is rejected
    with [InvalidDecision], session and store unchanged. *)
Lemma submit_decision_invalid (now : Z) (input : string) s db :
  completed s = false →
  parse_decision input = None →
  submit_decision now input s db = (inl InvalidDecision, s, db).
Proof.
  intros Hc Hbad. unfold submit_decision, process_round.
  by rewrite Hc, Hbad.
Qed.

Lemma start_inv registry c s0 :
  start registry c None = inr s0 → reachable_inv c s0 [].
Proof.
  unfold start. destruct (registry !! opponent_strategy c); [|discriminate].
  intros [= <-]. unfold reachable_inv. simpl.
  repeat split; done.
Qed.

Lemma submit_decision_inv c (now : Z) (input : string) s db :
  reachable_inv c s db →
  reachable_inv c (submit_decision now input s db).1.2
                  (submit_decision now input s db).2.
Proof.
  intros Hinv. unfold submit_decision, process_round.
  destruct (completed s) eqn:Hc; [exact Hinv|].
  destruct (parse_decision input) as [d|]; [|exact Hinv].
  destruct (payoff_matrix (cfg s) d _) as [ps os]. simpl.
  destruct Hinv as (Hcfg & Hround & Hdone & Hbelow & Hcount).
  rewrite Hc in Hround, Hcount.
  case_bool_decide as Hlast; unfold reachable_inv; simpl;
    rewrite !persist_count_app, Hcount, length_app; simpl.
  - repeat split; try done; try lia. intros _. congruence.
  - repeat split; try done; try lia.
    intros _ Hpos. specialize (Hbelow Hc Hpos).
    rewrite Hcfg in Hlast. lia.
Qed.

Lemma submit_all_inv c (reqs : list (Z * string)) :
  ∀ s db, reachable_inv c s db →
          reachable_inv c (submit_all reqs s db).1 (submit_all reqs s db).2.
Proof.
  induction reqs as [|[now input] reqs IH]; intros s db Hinv; [exact Hinv|].
  simpl. pose proof (submit_decision_inv c now input s db Hinv) as Hstep.
  destruct (submit_decision now input s db) as [[res s'] db'].
  by apply IH.
Qed.

(** C4: a completed session rejects every further submission with
    [SessionAlreadyComplete], whatever is submitted, leaving session and
    store as they were, so no retry adds a call to the store; and for a
    session run from [start] on an empty store the result record has been
    persisted exactly once when the session is complete (not at all
    before), a session with at least one configured round being complete
    exactly when that many rounds have been played. *)
Theorem completed_session_is_final s db :
  (completed s = true →
     (∀ now input,
        submit_decision now input s db = (inl SessionAlreadyComplete, s, db))
     ∧ (∀ retries, submit_all retries s db = (s, db)))
  ∧ (∀ registry c s0 reqs,
       start registry c None = inr s0 →
       submit_all reqs s0 [] = (s, db) →
       persist_count db = (if completed s then 1 else 0)%nat
       ∧ (1 ≤ total_rounds c →
            (completed s = true
             ↔ Z.of_nat (length (history s)) = total_rounds c))).
Proof.
  split.
  - intros Hdone. split.
    + intros now input. by apply submit_decision_completed.
    + intros retries. by apply submit_all_completed.
  - intros registry c s0 reqs Hstart Hrun.
    pose proof (submit_all_inv c reqs s0 [] (start_inv _ _ _ Hstart))
      as Hinv.
    rewrite Hrun in Hinv. simpl in Hinv.
    destruct Hinv as (Hcfg & Hround & Hdone & Hbelow & Hcount).
    split; [exact Hcount|]. intros Hpos.
    destruct (completed s).
    + specialize (Hdone eq_refl). split; [lia|done].
    + specialize (Hbelow eq_refl Hpos). split; [done|lia].
Qed.

Lemma completed_session_is_final_witness :
  start example_registry example_config None = inr example_started
  ∧ submit_all example_requests example_started []
    = (example_finished.1, example_finished.2)
  ∧ completed example_finished.1 = true
  ∧ submit_decision 13 "cooperate" example_finished.1 example_finished.2
    = (inl SessionAlreadyComplete, example_finished.1, example_finished.2)
  ∧ submit_all [(13, "cooperate"); (14, "maybe"); (15, "cooperate")]
      example_finished.1 example_finished.2
    = (example_finished.1, example_finished.2)
  ∧ persist_count example_finished.2 = 1%nat
  ∧ Z.of_nat (length (history example_finished.1)) = 3.
Proof.
  assert (Hstart : start example_registry example_config None
                   = inr example_started) by reflexivity.
  assert (Hrun : submit_all example_requests example_started []
                 = (example_finished.1, example_finished.2))
    by reflexivity.
  assert (Hdone : completed example_finished.1 = true) by reflexivity.
  destruct (completed_session_is_final example_finished.1 example_finished.2)
    as [Hfinal Hreach].
  destruct (Hfinal Hdone) as [Hsubmit Hretry].
  destruct (Hreach example_registry example_config example_started
              example_requests Hstart Hrun) as [Hcount Hiff].
  split; [exact Hstart|]. split; [exact Hrun|]. split; [exact Hdone|].
  split; [apply Hsubmit|]. split; [apply Hretry|].
  split.
  - rewrite Hcount, Hdone. reflexivity.
  - apply Hiff; [simpl; lia|exact Hdone].
Defined.

End SessionProperties.

(** * Further properties of [pd_game.py] *)

Section PDGameInvariants.

Import PDGame.

Implicit Types (api : nat → string → api_reply) (w : world).
Implicit Types (history : list (string * string)) (scores : Scores).
Implicit Types (st : list (string * string) * Scores).

(** *** Invariants of the loop *)

(** A property of history, scores and world that every pass through the
    loop body preserves holds when the loop ends, and the loop does end. *)
Lemma play_turns_invariant api strat
    (P : list (string * string) * Scores → world → Prop) :
  (∀ st w,
     P st w →
     P (turn_result strat st
          (api (length (api_log w)) (build_prompt st.1)))
       (world_after_call st.1
          (api (length (api_log w)) (build_prompt st.1)) w)) →
  ∀ n st w,
    P st w →
    ∃ st' w',
      play_turns api n strat st w = (Returns st', w')
      ∧ P st' w'
      ∧ length st'.1 = (length st.1 + n)%nat.
Proof.
  intros Hstep. induction n as [|n IH]; intros [history scores] w HP.
  - exists (history, scores), w. simpl. repeat split; [done|lia].
  - rewrite play_turns_S, play_turn_eq.
    specialize (Hstep (history, scores) w HP). unfold turn_result in Hstep.
    simpl in Hstep.
    destruct (IH _ _ Hstep) as (st' & w' & Hrun & HP' & Hlen).
    exists st', w'. split; [exact Hrun|]. split; [exact HP'|].
    rewrite Hlen. simpl. rewrite length_app. simpl. lia.
Qed.

Lemma play_match_invariant api (strategy_name : string) strat turns w
    (P : list (string * string) * Scores → world → Prop) :
  STRATEGIES !! strategy_name = Some strat →
  (∀ st w,
     P st w →
     P (turn_result strat st
          (api (length (api_log w)) (build_prompt st.1)))
       (world_after_call st.1
          (api (length (api_log w)) (build_prompt st.1)) w)) →
  P ([], zero_scores) w →
  ∃ r w',
    play_match api strategy_name turns w = (Returns r, w')
    ∧ P (res_history r, res_scores r) w'
    ∧ length (res_history r) = Z.to_nat turns.
Proof.
  intros Hreg Hstep Hinit.
  destruct (play_turns_invariant api strat P Hstep (Z.to_nat turns)
              ([], zero_scores) w Hinit)
    as ([history scores] & w' & Hrun & HP & Hlen).
  eexists _, w'. split.
  { rewrite (play_match_known _ _ _ _ _ Hreg), Hrun. reflexivity. }
  simpl. split; [exact HP|exact Hlen].
Qed.

Lemma payoff_cc : payoff cooperate cooperate = (3, 3).
Proof. reflexivity. Qed.
Lemma payoff_cd : payoff cooperate defect = (0, 5).
Proof. reflexivity. Qed.
Lemma payoff_dc : payoff defect cooperate = (5, 0).
Proof. reflexivity. Qed.
Lemma payoff_dd : payoff defect defect = (1, 1).
Proof. reflexivity. Qed.

Lemma valid_move_cases (m : string) :
  m ∈ [cooperate; defect] → m = cooperate ∨ m = defect.
Proof.
  rewrite !elem_of_cons, elem_of_nil. intros [->|[->|[]]]; auto.
Qed.

Lemma strategy_move_on_valid strat history :
  (∀ rec, rec ∈ history → rec.1 ∈ [cooperate; defect]) →
  strategy_move_on strat history ∈ [cooperate; defect].
Proof.
  intros Hvalid. unfold strategy_move_on. destruct strat; simpl.
  - rewrite fmap_last. destruct (last history) as [rec|] eqn:Hlast; simpl.
    + apply Hvalid. by eapply last_Some_elem_of.
    + apply list_elem_of_here.
  - apply list_elem_of_further, list_elem_of_here.
  - apply list_elem_of_here.
Qed.

(** *** Only the two moves are ever recorded *)

(** X1: every record of the history a match returns holds [cooperate] or
    [defect] on both sides, whatever the API replied. *)
Theorem history_moves_are_valid api (strategy_name : string) strat turns w :
  STRATEGIES !! strategy_name = Some strat →
  ∃ r w',
    play_match api strategy_name turns w = (Returns r, w')
    ∧ ∀ rec, rec ∈ res_history r →
        rec.1 ∈ [cooperate; defect] ∧ rec.2 ∈ [cooperate; defect].
Proof.
  intros Hreg.
  destruct (play_match_invariant api strategy_name strat turns w
              (λ st _, ∀ rec, rec ∈ st.1 →
                 rec.1 ∈ [cooperate; defect] ∧ rec.2 ∈ [cooperate; defect])
              Hreg) as (r & w' & Hrun & HP & _).
  - intros [history scores] w1 HP rec. unfold turn_result. simpl in *.
    rewrite elem_of_app, list_elem_of_singleton. intros [Hin| ->].
    + by apply HP.
    + simpl. split; [apply decision_of_valid|].
      apply strategy_move_on_valid. intros rec' Hin. by apply HP.
  - simpl. intros rec Hin. by apply elem_of_nil in Hin.
  - exists r, w'. split; [exact Hrun|exact HP].
Qed.

Lemma history_moves_are_valid_witness :
  STRATEGIES !! "TitForTat" = Some TitForTat
  ∧ ∃ r w',
      play_match (script ["nonsense"; "DEFECT"]) "TitForTat" 4 w0
      = (Returns r, w')
      ∧ ∀ rec, rec ∈ res_history r →
          rec.1 ∈ [cooperate; defect] ∧ rec.2 ∈ [cooperate; defect].
Proof.
  split; [reflexivity|].
  exact (history_moves_are_valid (script ["nonsense"; "DEFECT"])
           "TitForTat" TitForTat 4 w0 eq_refl).
Defined.

(** *** Bounds on the scores *)

Lemma payoff_bounds (llm_move strategy_move : string) :
  0 ≤ (payoff llm_move strategy_move).1 ≤ 5
  ∧ 0 ≤ (payoff llm_move strategy_move).2 ≤ 5
  ∧ 2 ≤ (payoff llm_move strategy_move).1 + (payoff llm_move strategy_move).2
      ≤ 6.
Proof.
  unfold payoff, update_scores. repeat case_bool_decide; simpl; lia.
Qed.

(** X2: after a match neither score is negative, neither exceeds five
    points per round played, and together they lie between two and six
    points per round played. *)
Theorem scores_are_bounded api (strategy_name : string) strat turns w :
  STRATEGIES !! strategy_name = Some strat →
  ∃ r w',
    play_match api strategy_name turns w = (Returns r, w')
    ∧ 0 ≤ llm (res_scores r) ≤ 5 * Z.of_nat (length (res_history r))
    ∧ 0 ≤ strategy (res_scores r) ≤ 5 * Z.of_nat (length (res_history r))
    ∧ 2 * Z.of_nat (length (res_history r))
      ≤ llm (res_scores r) + strategy (res_scores r)
      ≤ 6 * Z.of_nat (length (res_history r)).
Proof.
  intros Hreg.
  destruct (play_match_invariant api strategy_name strat turns w
              (λ st _,
                 0 ≤ llm st.2 ≤ 5 * Z.of_nat (length st.1)
                 ∧ 0 ≤ strategy st.2 ≤ 5 * Z.of_nat (length st.1)
                 ∧ 2 * Z.of_nat (length st.1) ≤ llm st.2 + strategy st.2
                   ≤ 6 * Z.of_nat (length st.1))
              Hreg) as (r & w' & Hrun & HP & _).
  - intros [history scores] w1 HP. unfold turn_result. simpl in *.
    rewrite update_scores_add, length_app. unfold add_scores.
    cbn [llm strategy length].
    pose proof (payoff_bounds
                  (decision_of (api (length (api_log w1)) (build_prompt history)))
                  (strategy_move_on strat history)) as Hb.
    lia.
  - simpl. lia.
  - exists r, w'. split; [exact Hrun|exact HP].
Qed.

Lemma scores_are_bounded_witness :
  STRATEGIES !! "AlwaysDefect" = Some AlwaysDefect
  ∧ ∃ r w',
      play_match (script ["cooperate"; "defect"]) "AlwaysDefect" 3 w0
      = (Returns r, w')
      ∧ 0 ≤ llm (res_scores r) ≤ 5 * Z.of_nat (length (res_history r))
      ∧ 0 ≤ strategy (res_scores r) ≤ 5 * Z.of_nat (length (res_history r))
      ∧ 2 * Z.of_nat (length (res_history r))
        ≤ llm (res_scores r) + strategy (res_scores r)
        ≤ 6 * Z.of_nat (length (res_history r)).
Proof.
  split; [reflexivity|].
  exact (scores_are_bounded (script ["cooperate"; "defect"])
           "AlwaysDefect" AlwaysDefect 3 w0 eq_refl).
Defined.

(** *** Matches against TitForTat *)

Lemma tit_for_tat_opens history :
  last history = None → strategy_move_on TitForTat history = cooperate.
Proof.
  intros Hlast. unfold strategy_move_on. simpl.
  by rewrite fmap_last, Hlast.
Qed.

Lemma tit_for_tat_after history (prev : string * string) :
  last history = Some prev → strategy_move_on TitForTat history = prev.1.
Proof.
  intros Hlast. unfold strategy_move_on. simpl.
  by rewrite fmap_last, Hlast.
Qed.

(** X3: in a match against TitForTat the strategy opens with [cooperate]
    and, in every later round, plays what the LLM played in the round
    before. *)
Theorem tit_for_tat_echoes_previous_move api turns w :
  ∃ r w',
    play_match api "TitForTat" turns w = (Returns r, w')
    ∧ (∀ rec, res_history r !! 0%nat = Some rec → rec.2 = cooperate)
    ∧ (∀ k prev rec,
         res_history r !! k = Some prev →
         res_history r !! S k = Some rec →
         rec.2 = prev.1).
Proof.
  destruct (play_match_invariant api "TitForTat" TitForTat turns w
              (λ st _,
                 (∀ rec, st.1 !! 0%nat = Some rec → rec.2 = cooperate)
                 ∧ (∀ k prev rec,
                      st.1 !! k = Some prev → st.1 !! S k = Some rec →
                      rec.2 = prev.1))
              eq_refl) as (r & w' & Hrun & HP & _).
  - intros [history scores] w1 [Hfirst Hnext]. unfold turn_result.
    simpl in *. split.
    + intros rec Hrec. apply lookup_snoc_Some in Hrec as [[_ Hrec]|[H0 <-]].
      * by apply Hfirst.
      * simpl. apply tit_for_tat_opens.
        symmetry in H0. apply length_zero_iff_nil in H0. by subst history.
    + intros k prev rec Hprev Hrec.
      apply lookup_snoc_Some in Hrec as [[Hlt Hrec]|[Hk <-]].
      * rewrite lookup_app_l in Hprev by lia. by eapply Hnext.
      * rewrite lookup_app_l in Hprev by lia. simpl.
        apply tit_for_tat_after. rewrite last_lookup, <- Hk. exact Hprev.
  - simpl. split; [intros rec Hrec|intros k prev rec Hrec]; discriminate Hrec.
  - exists r, w'. split; [exact Hrun|exact HP].
Qed.

(** X4: in a match against TitForTat the LLM's score is never below the
    strategy's and never more than five points above it: the two are equal
    unless the LLM defected in the last round, in which case the LLM leads
    by exactly five. *)
Theorem tit_for_tat_score_gap api turns w :
  ∃ r w',
    play_match api "TitForTat" turns w = (Returns r, w')
    ∧ llm (res_scores r) - strategy (res_scores r)
      = match last (res_history r) with
        | Some rec => if bool_decide (rec.1 = defect) then 5 else 0
        | None => 0
        end.
Proof.
  destruct (play_match_invariant api "TitForTat" TitForTat turns w
              (λ st _,
                 (∀ rec, last st.1 = Some rec → rec.1 ∈ [cooperate; defect])
                 ∧ llm st.2 - strategy st.2
                   = match last st.1 with
                     | Some rec => if bool_decide (rec.1 = defect) then 5 else 0
                     | None => 0
                     end)
              eq_refl) as (r & w' & Hrun & [_ HP] & _).
  - intros [history scores] w1 [Hvalid Hgap]. unfold turn_result.
    cbn [fst snd] in *. rewrite last_snoc.
    set (reply := api (length (api_log w1)) (build_prompt history)).
    split.
    { intros rec [= <-]. apply decision_of_valid. }
    rewrite update_scores_add. unfold add_scores. cbn [llm strategy fst snd].
    destruct (last history) as [prev|] eqn:Hlast.
    + rewrite (tit_for_tat_after _ _ Hlast).
      destruct (valid_move_cases _ (Hvalid prev eq_refl)) as [Hp|Hp];
        destruct (valid_move_cases _ (decision_of_valid reply)) as [Hd|Hd];
        rewrite Hp in Hgap |- *; rewrite Hd;
        rewrite ?payoff_cc, ?payoff_cd, ?payoff_dc, ?payoff_dd;
        repeat case_bool_decide; try discriminate; try congruence; simpl in *; lia.
    + rewrite (tit_for_tat_opens _ Hlast).
      destruct (valid_move_cases _ (decision_of_valid reply)) as [Hd|Hd];
        rewrite Hd;
        rewrite ?payoff_cc, ?payoff_cd, ?payoff_dc, ?payoff_dd;
        repeat case_bool_decide; try discriminate; try congruence; simpl in *; lia.
  - simpl. split; [intros rec Hrec; discriminate Hrec|reflexivity].
  - exists r, w'. split; [exact Hrun|exact HP].
Qed.

(** *** Matches against the constant strategies *)

Lemma count_llm_snoc (m llm_move strategy_move : string) history :
  count_llm m (history ++ [(llm_move, strategy_move)])
  = count_llm m history + (if bool_decide (llm_move = m) then 1 else 0).
Proof.
  unfold count_llm. rewrite filter_app, length_app, Nat2Z.inj_add.
  f_equal. rewrite filter_cons, filter_nil. simpl.
  case_decide; case_bool_decide; done.
Qed.

(** X5: in a match against AlwaysDefect the strategy defects in every
    round; the LLM earns one point per round in which it defected and
    nothing otherwise, the strategy five points per round in which the LLM
    cooperated and one per round in which it defected; so the LLM never
    finishes ahead. *)
Theorem always_defect_scores api turns w :
  ∃ r w',
    play_match api "AlwaysDefect" turns w = (Returns r, w')
    ∧ (∀ rec, rec ∈ res_history r → rec.2 = defect)
    ∧ count_llm cooperate (res_history r) + count_llm defect (res_history r)
      = Z.of_nat (length (res_history r))
    ∧ llm (res_scores r) = count_llm defect (res_history r)
    ∧ strategy (res_scores r)
      = 5 * count_llm cooperate (res_history r)
        + count_llm defect (res_history r)
    ∧ llm (res_scores r) ≤ strategy (res_scores r).
Proof.
  destruct (play_match_invariant api "AlwaysDefect" AlwaysDefect turns w
              (λ st _,
                 (∀ rec, rec ∈ st.1 → rec.2 = defect)
                 ∧ 0 ≤ count_llm cooperate st.1
                 ∧ count_llm cooperate st.1 + count_llm defect st.1
                   = Z.of_nat (length st.1)
                 ∧ llm st.2 = count_llm defect st.1
                 ∧ strategy st.2
                   = 5 * count_llm cooperate st.1 + count_llm defect st.1)
              eq_refl) as (r & w' & Hrun & (Hall & Hpos & Hsum & Hl & Hs) & _).
  - intros [history scores] w1 (Hall & Hpos & Hsum & Hl & Hs).
    unfold turn_result. cbn [fst snd] in *.
    set (reply := api (length (api_log w1)) (build_prompt history)).
    change (strategy_move_on AlwaysDefect history) with defect.
    split.
    { intros rec. rewrite elem_of_app, list_elem_of_singleton.
      intros [Hin| ->]; [by apply Hall|reflexivity]. }
    rewrite !count_llm_snoc, update_scores_add, length_app.
    unfold add_scores. cbn [llm strategy fst snd length].
    destruct (valid_move_cases _ (decision_of_valid reply)) as [Hd|Hd];
      rewrite Hd; rewrite ?payoff_cd, ?payoff_dd;
      repeat case_bool_decide; try discriminate; try congruence; simpl; lia.
  - simpl. repeat split; try done. intros rec Hin. by apply elem_of_nil in Hin.
  - cbn [fst snd] in *. exists r, w'. repeat split; try done. lia.
Qed.

(** X6: in a match against AlwaysCooperate the strategy cooperates in every
    round; both sides earn three points per round in which the LLM
    cooperated, and the LLM five more per round in which it defected; so the
    strategy never finishes ahead. *)
Theorem always_cooperate_scores api turns w :
  ∃ r w',
    play_match api "AlwaysCooperate" turns w = (Returns r, w')
    ∧ (∀ rec, rec ∈ res_history r → rec.2 = cooperate)
    ∧ count_llm cooperate (res_history r) + count_llm defect (res_history r)
      = Z.of_nat (length (res_history r))
    ∧ llm (res_scores r)
      = 3 * count_llm cooperate (res_history r)
        + 5 * count_llm defect (res_history r)
    ∧ strategy (res_scores r) = 3 * count_llm cooperate (res_history r)
    ∧ strategy (res_scores r) ≤ llm (res_scores r).
Proof.
  destruct (play_match_invariant api "AlwaysCooperate" AlwaysCooperate turns w
              (λ st _,
                 (∀ rec, rec ∈ st.1 → rec.2 = cooperate)
                 ∧ 0 ≤ count_llm defect st.1
                 ∧ count_llm cooperate st.1 + count_llm defect st.1
                   = Z.of_nat (length st.1)
                 ∧ llm st.2
                   = 3 * count_llm cooperate st.1 + 5 * count_llm defect st.1
                 ∧ strategy st.2 = 3 * count_llm cooperate st.1)
              eq_refl) as (r & w' & Hrun & (Hall & Hpos & Hsum & Hl & Hs) & _).
  - intros [history scores] w1 (Hall & Hpos & Hsum & Hl & Hs).
    unfold turn_result. cbn [fst snd] in *.
    set (reply := api (length (api_log w1)) (build_prompt history)).
    change (strategy_move_on AlwaysCooperate history) with cooperate.
    split.
    { intros rec. rewrite elem_of_app, list_elem_of_singleton.
      intros [Hin| ->]; [by apply Hall|reflexivity]. }
    rewrite !count_llm_snoc, update_scores_add, length_app.
    unfold add_scores. cbn [llm strategy fst snd length].
    destruct (valid_move_cases _ (decision_of_valid reply)) as [Hd|Hd];
      rewrite Hd; rewrite ?payoff_cc, ?payoff_dc;
      repeat case_bool_decide; try discriminate; try congruence; simpl; lia.
  - simpl. repeat split; try done. intros rec Hin. by apply elem_of_nil in Hin.
  - cbn [fst snd] in *. exists r, w'. repeat split; try done. lia.
Qed.

(** *** What a match sends and prints *)

Lemma strategy_move_on_all_cooperate strat (n : nat) (x : string) :
  strategy_move_on strat (replicate n (cooperate, x)) = get_move strat [].
Proof.
  unfold strategy_move_on. destruct strat; simpl; try reflexivity.
  rewrite fmap_replicate. simpl. destruct n as [|n]; [reflexivity|].
  by rewrite replicate_S_end, last_snoc.
Qed.

(** X7: when every call of the API raises, the match still returns: the LLM
    side cooperates in every round, the strategy answers every round as it
    answers an empty history, and one line is printed per round. *)
Theorem failing_api_plays_cooperate api (strategy_name : string) strat turns w :
  STRATEGIES !! strategy_name = Some strat →
  (∀ n prompt, ∃ msg, api n prompt = ApiException msg) →
  ∃ r w',
    play_match api strategy_name turns w = (Returns r, w')
    ∧ res_history r
      = replicate (Z.to_nat turns) (cooperate, get_move strat [])
    ∧ length (stdout w') = (length (stdout w) + Z.to_nat turns)%nat.
Proof.
  intros Hreg Hfail.
  destruct (play_match_invariant api strategy_name strat turns w
              (λ st w1,
                 st.1 = replicate (length st.1) (cooperate, get_move strat [])
                 ∧ length (stdout w1)
                   = (length (stdout w) + length st.1)%nat)
              Hreg) as (r & w' & Hrun & [Hh Hout] & Hlen).
  - intros [history scores] w1 [Hh Hout]. unfold turn_result.
    cbn [fst snd] in *.
    destruct (Hfail (length (api_log w1)) (build_prompt history))
      as [msg Hmsg].
    rewrite Hmsg. cbn [decision_of world_after_call stdout].
    rewrite !length_app. cbn [length]. split; [|lia].
    rewrite Nat.add_1_r, replicate_S_end. f_equal; [exact Hh|].
    rewrite Hh at 1. by rewrite strategy_move_on_all_cooperate.
  - simpl. split; [reflexivity|lia].
  - cbn [fst snd] in *. exists r, w'. rewrite <- Hlen.
    split; [exact Hrun|]. split; [exact Hh|exact Hout].
Qed.

Lemma failing_api_plays_cooperate_witness :
  STRATEGIES !! "AlwaysDefect" = Some AlwaysDefect
  ∧ (∀ n prompt, ∃ msg, script [] n prompt = ApiException msg)
  ∧ ∃ r w',
      play_match (script []) "AlwaysDefect" 3 w0 = (Returns r, w')
      ∧ res_history r
        = replicate (Z.to_nat 3) (cooperate, get_move AlwaysDefect [])
      ∧ length (stdout w') = (length (stdout w0) + Z.to_nat 3)%nat.
Proof.
  assert (Hfail : ∀ n prompt, ∃ msg, script [] n prompt = ApiException msg).
  { intros n prompt. exists "no reply". reflexivity. }
  split; [reflexivity|]. split; [exact Hfail|].
  exact (failing_api_plays_cooperate (script []) "AlwaysDefect" AlwaysDefect
           3 w0 eq_refl Hfail).
Defined.

(** X8: when no call of the API raises, a match prints nothing. *)
Theorem answering_api_prints_nothing
    api (strategy_name : string) strat turns w :
  STRATEGIES !! strategy_name = Some strat →
  (∀ n prompt, ∃ text, api n prompt = Content text) →
  ∃ r w',
    play_match api strategy_name turns w = (Returns r, w')
    ∧ stdout w' = stdout w.
Proof.
  intros Hreg Hanswers.
  destruct (play_match_invariant api strategy_name strat turns w
              (λ _ w1, stdout w1 = stdout w) Hreg)
    as (r & w' & Hrun & Hout & _).
  - intros [history scores] w1 Hout. cbn [fst snd].
    destruct (Hanswers (length (api_log w1)) (build_prompt history))
      as [text Htext].
    rewrite Htext. exact Hout.
  - reflexivity.
  - exists r, w'. split; [exact Hrun|exact Hout].
Qed.

Lemma answering_api_prints_nothing_witness :
  STRATEGIES !! "TitForTat" = Some TitForTat
  ∧ (∀ n prompt, ∃ text, (λ (_ : nat) (_ : string), Content "Defect") n prompt = Content text)
  ∧ ∃ r w',
      play_match (λ (_ : nat) (_ : string), Content "Defect") "TitForTat" 2 w0 = (Returns r, w')
      ∧ stdout w' = stdout w0.
Proof.
  assert (Hanswers : ∀ (n : nat) (prompt : string),
            ∃ text, (λ (_ : nat) (_ : string), Content "Defect") n prompt = Content text).
  { intros n prompt. exists "Defect". reflexivity. }
  split; [reflexivity|]. split; [exact Hanswers|].
  exact (answering_api_prints_nothing (λ (_ : nat) (_ : string), Content "Defect") "TitForTat"
           TitForTat 2 w0 eq_refl Hanswers).
Defined.

(** X9: a match sends one prompt per round, in order, and the prompt of
    round [k + 1] is built from exactly the first [k] records of the history
    that the match returns. *)
Theorem prompts_follow_history api (strategy_name : string) strat turns w :
  STRATEGIES !! strategy_name = Some strat →
  ∃ r w',
    play_match api strategy_name turns w = (Returns r, w')
    ∧ api_log w'
      = api_log w
        ++ ((λ k, build_prompt (take k (res_history r)))
              <$> seq 0 (length (res_history r))).
Proof.
  intros Hreg.
  destruct (play_match_invariant api strategy_name strat turns w
              (λ st w1,
                 api_log w1
                 = api_log w
                   ++ ((λ k, build_prompt (take k st.1))
                         <$> seq 0 (length st.1)))
              Hreg) as (r & w' & Hrun & Hlog & _).
  - intros [history scores] w1 Hlog. unfold turn_result.
    cbn [fst snd world_after_call api_log] in *.
    set (reply := api (length (api_log w1)) (build_prompt history)).
    set (rec := (decision_of reply, strategy_move_on strat history)).
    rewrite Hlog, (length_app history [rec]). cbn [length].
    rewrite Nat.add_1_r, seq_S, fmap_app, <- app_assoc. f_equal.
    cbn [fmap list_fmap]. f_equal.
    + apply list_fmap_ext. intros i k Hk.
      apply lookup_seq in Hk as [-> Hlt]. simpl.
      by rewrite take_app_le by lia.
    + simpl. by rewrite take_app_length.
  - simpl. by rewrite app_nil_r.
  - exists r, w'. split; [exact Hrun|exact Hlog].
Qed.

Lemma prompts_follow_history_witness :
  STRATEGIES !! "TitForTat" = Some TitForTat
  ∧ ∃ r w',
      play_match (script ["defect"; "cooperate"]) "TitForTat" 3 w0
      = (Returns r, w')
      ∧ api_log w'
        = api_log w0
          ++ ((λ k, build_prompt (take k (res_history r)))
                <$> seq 0 (length (res_history r))).
Proof.
  split; [reflexivity|].
  exact (prompts_follow_history (script ["defect"; "cooperate"])
           "TitForTat" TitForTat 3 w0 eq_refl).
Defined.

(** *** The prompt *)

(** X10: the prompt depends on the history only through its length and its
    last five records: earlier rounds never reach the LLM. *)
Theorem prompt_shows_last_five_rounds (h1 h2 : list (string * string)) :
  length h1 = length h2 →
  Py.last_k 5 h1 = Py.last_k 5 h2 →
  build_prompt h1 = build_prompt h2.
Proof.
  intros Hlen Hlast.
  assert (Hrecent : recent_moves h1 = recent_moves h2).
  { unfold recent_moves, round_num. by rewrite Hlen, Hlast. }
  unfold build_prompt. rewrite Hrecent.
  destruct h1, h2; try discriminate Hlen; reflexivity.
Qed.

Lemma prompt_shows_last_five_rounds_witness :
  length (("defect", "cooperate") :: replicate 5 ("cooperate", "defect"))
  = length (("cooperate", "cooperate") :: replicate 5 ("cooperate", "defect"))
  ∧ Py.last_k 5 (("defect", "cooperate") :: replicate 5 ("cooperate", "defect"))
    = Py.last_k 5 (("cooperate", "cooperate")
                     :: replicate 5 ("cooperate", "defect"))
  ∧ build_prompt (("defect", "cooperate") :: replicate 5 ("cooperate", "defect"))
    = build_prompt (("cooperate", "cooperate")
                      :: replicate 5 ("cooperate", "defect")).
Proof.
  split; [reflexivity|]. split; [reflexivity|].
  apply (prompt_shows_last_five_rounds
           (("defect", "cooperate") :: replicate 5 ("cooperate", "defect"))
           (("cooperate", "cooperate") :: replicate 5 ("cooperate", "defect")));
    reflexivity.
Defined.

(** *** The strategies on offer *)

(** X11: the names [get_available_strategies] lists are exactly those with
    which [play_match] returns a result, each is listed once, and the
    strategy registered under a name carries that name. *)
Theorem available_strategies_are_playable api (strategy_name : string) turns w :
  (strategy_name ∈ get_available_strategies
   ↔ ∃ r w', play_match api strategy_name turns w = (Returns r, w'))
  ∧ NoDup get_available_strategies
  ∧ (∀ strat, STRATEGIES !! strategy_name = Some strat →
              name strat = strategy_name).
Proof.
  split; [|split].
  - rewrite <- STRATEGIES_names. split.
    + intros [strat Hreg].
      rewrite (play_match_known _ _ _ _ _ Hreg).
      destruct (play_turns_spec api (Z.to_nat turns) strat [] zero_scores w)
        as (suffix & w' & Hrun & _).
      rewrite Hrun. eauto.
    + intros (r & w' & Hrun).
      destruct (STRATEGIES !! strategy_name) as [strat|] eqn:Hreg; [eauto|].
      unfold play_match, bind in Hrun.
      rewrite (create_strategy_unknown _ _ Hreg) in Hrun. discriminate.
  - unfold get_available_strategies.
    repeat (apply NoDup_cons; split;
            [rewrite ?not_elem_of_cons; repeat split;
             try discriminate; apply not_elem_of_nil|]).
    apply NoDup_nil_2.
  - intros strat Hreg. unfold STRATEGIES in Hreg.
    rewrite !lookup_insert, lookup_empty in Hreg.
    repeat case_decide; try discriminate Hreg;
      injection Hreg as <-; subst strategy_name; reflexivity.
Qed.

Lemma available_strategies_are_playable_witness :
  "AlwaysCooperate" ∈ get_available_strategies
  ∧ ∃ r w', play_match (script []) "AlwaysCooperate" 2 w0 = (Returns r, w').
Proof.
  assert (Hin : "AlwaysCooperate" ∈ get_available_strategies).
  { unfold get_available_strategies. set_solver. }
  split; [exact Hin|].
  exact (proj1 (proj1 (available_strategies_are_playable
                         (script []) "AlwaysCooperate" 2 w0)) Hin).
Defined.

End PDGameInvariants.

(** * The normalisation of a reply *)

Section ReplyNormalisation.

Import PDGame.

Lemma string_app_cons (c : ascii) (a b : string) :
  String c a +:+ b = String c (a +:+ b).
Proof. reflexivity. Qed.

Lemma string_app_assoc (a b c : string) : (a +:+ b) +:+ c = a +:+ (b +:+ c).
Proof.
  induction a as [|x a IH]; [reflexivity|].
  by rewrite !string_app_cons, IH.
Qed.

Lemma rev_app_app (a b c : string) :
  String.rev_app (a +:+ b) c = String.rev_app b (String.rev_app a c).
Proof.
  revert c. induction a as [|x a IH]; intros c; [reflexivity|].
  rewrite string_app_cons. simpl. apply IH.
Qed.

Lemma rev_app_spec (a c : string) :
  String.rev_app a c = String.rev a +:+ c.
Proof.
  revert c. induction a as [|x a IH]; intros c; [reflexivity|].
  unfold String.rev. simpl. rewrite (IH (String x c)), (IH (String x EmptyString)).
  by rewrite string_app_assoc.
Qed.

Lemma rev_app_distr (a b : string) :
  String.rev (a +:+ b) = String.rev b +:+ String.rev a.
Proof.
  unfold String.rev at 1. rewrite rev_app_app, rev_app_spec. reflexivity.
Qed.

Lemma all_space_rev_app (a c : string) :
  all_space (String.rev_app a c) = all_space a && all_space c.
Proof.
  revert c. induction a as [|x a IH]; intros c; [reflexivity|].
  simpl. rewrite IH. simpl. by destruct (Py.isspace x), (all_space a).
Qed.

Lemma all_space_rev (a : string) : all_space (String.rev a) = all_space a.
Proof. unfold String.rev. rewrite all_space_rev_app. simpl. apply andb_true_r. Qed.

Lemma lstrip_all_space (t : string) :
  all_space t = true → Py.lstrip t = EmptyString.
Proof.
  induction t as [|x t IH]; [reflexivity|]. simpl.
  destruct (Py.isspace x); [exact IH|discriminate].
Qed.

Lemma lstrip_app (t u : string) :
  Py.lstrip (t +:+ u)
  = if all_space t then Py.lstrip u else Py.lstrip t +:+ u.
Proof.
  induction t as [|x t IH]; [reflexivity|].
  rewrite string_app_cons. simpl. destruct (Py.isspace x); [exact IH|].
  reflexivity.
Qed.

Lemma rstrip_app_space (t ws : string) :
  all_space ws = true → Py.rstrip (t +:+ ws) = Py.rstrip t.
Proof.
  intros Hws. unfold Py.rstrip.
  by rewrite rev_app_distr, lstrip_app, all_space_rev, Hws.
Qed.

Lemma strip_padding (ws1 ws2 text : string) :
  all_space ws1 = true → all_space ws2 = true →
  Py.strip (ws1 +:+ text +:+ ws2) = Py.strip text.
Proof.
  intros H1 H2. unfold Py.strip.
  rewrite (lstrip_app ws1), H1, (lstrip_app text).
  destruct (all_space text) eqn:Htext.
  - by rewrite (lstrip_all_space _ H2), (lstrip_all_space _ Htext).
  - by apply rstrip_app_space.
Qed.

Lemma isspace_lower_char (c : ascii) :
  Py.isspace (Py.lower_char c) = Py.isspace c.
Proof. destruct c as [[] [] [] [] [] [] [] []]; reflexivity. Qed.

Lemma lower_char_idem (c : ascii) :
  Py.lower_char (Py.lower_char c) = Py.lower_char c.
Proof. destruct c as [[] [] [] [] [] [] [] []]; reflexivity. Qed.

Lemma lower_idem (s : string) : Py.lower (Py.lower s) = Py.lower s.
Proof.
  induction s as [|c s IH]; [reflexivity|]. simpl.
  by rewrite lower_char_idem, IH.
Qed.

Lemma lstrip_lower (s : string) :
  Py.lstrip (Py.lower s) = Py.lower (Py.lstrip s).
Proof.
  induction s as [|c s IH]; [reflexivity|]. simpl.
  rewrite isspace_lower_char. destruct (Py.isspace c); [exact IH|reflexivity].
Qed.

Lemma lower_rev_app (a c : string) :
  Py.lower (String.rev_app a c) = String.rev_app (Py.lower a) (Py.lower c).
Proof.
  revert c. induction a as [|x a IH]; intros c; [reflexivity|].
  simpl. apply IH.
Qed.

Lemma strip_lower (s : string) :
  Py.strip (Py.lower s) = Py.lower (Py.strip s).
Proof.
  unfold Py.strip, Py.rstrip, String.rev.
  by rewrite lstrip_lower, <- (lower_rev_app _ EmptyString), lstrip_lower,
    <- (lower_rev_app _ EmptyString).
Qed.

(** X12: white space around a reply and the letter case of a reply never
    change the move [get_llm_move] makes of it: a reply padded with white
    space on either side, and any reply that differs from it only by letter
    case, yield the same move. *)
Theorem reply_case_and_padding_ignored
    (ws1 ws2 t1 t2 : string) (history : list (string * string)) (w : world) :
  all_space ws1 = true →
  all_space ws2 = true →
  Py.lower t1 = Py.lower t2 →
  (get_llm_move (λ _ _, Content (ws1 +:+ t1 +:+ ws2)) history w).1
  = (get_llm_move (λ _ _, Content t2) history w).1.
Proof.
  intros H1 H2 Hcase. rewrite !get_llm_move_eq. simpl.
  rewrite (strip_padding _ _ _ H1 H2).
  by rewrite <- !strip_lower, Hcase.
Qed.

Lemma reply_case_and_padding_ignored_witness :
  all_space "  " = true
  ∧ all_space Py.NL = true
  ∧ Py.lower "DeFect" = Py.lower "defect"
  ∧ (get_llm_move (λ _ _, Content ("  " +:+ "DeFect" +:+ Py.NL)) [] w0).1
    = (get_llm_move (λ _ _, Content "defect") [] w0).1.
Proof.
  do 3 (split; [reflexivity|]).
  apply (reply_case_and_padding_ignored "  " Py.NL "DeFect" "defect" [] w0);
    reflexivity.
Defined.

End ReplyNormalisation.

(** * Properties of the registry of experiment modules *)

Section ExperimentsProperties.

Import Experiments.

Context {module : Type}.

Implicit Types (st : registry module) (m : module).

Lemma register_all_snoc (calls : list (string * module))
    (experiment_type : string) m st :
  register_all (calls ++ [(experiment_type, m)]) st
  = register_experiment experiment_type m (register_all calls st).
Proof. unfold register_all. by rewrite foldl_snoc. Qed.

Lemma warnings_register (experiment_type : string) m st :
  warnings (register_experiment experiment_type m st)
  = (warnings st
     + if bool_decide (is_Some (experiments st !! experiment_type))
       then 1 else 0)%nat.
Proof.
  unfold warnings, register_experiment. simpl.
  case_bool_decide; rewrite !filter_app, !length_app; simpl; lia.
Qed.

(** X13: after [register_experiment] the registry maps the type to the
    module just registered and every other type to what it mapped to
    before; it has one more entry when the type was new and as many as
    before when it was not. *)
Theorem register_then_lookup (experiment_type other : string) m st :
  other ≠ experiment_type →
  get_available_experiments (register_experiment experiment_type m st)
    !! experiment_type = Some m
  ∧ get_available_experiments (register_experiment experiment_type m st)
      !! other
    = get_available_experiments st !! other
  ∧ size (get_available_experiments
            (register_experiment experiment_type m st))
    = (if bool_decide (is_Some (experiments st !! experiment_type))
       then size (get_available_experiments st)
       else S (size (get_available_experiments st))).
Proof.
  intros Hother. unfold get_available_experiments, register_experiment.
  simpl. split; [apply lookup_insert_eq|]. split.
  - by apply lookup_insert_ne.
  - case_bool_decide as Hold.
    + destruct Hold as [old Hold]. by eapply map_size_insert_Some.
    + apply map_size_insert_None. by apply eq_None_not_Some.
Qed.

(** X14: over any run of registrations from the empty registry, the number
    of warnings logged is the number of calls that overwrote an entry: the
    warnings and the entries of the registry add up to the number of calls;
    and for each type the module of its last registration is the one the
    registry holds. *)
Theorem registrations_overwrite_and_warn
    (calls later : list (string * module)) (experiment_type : string) m :
  experiment_type ∉ later.*1 →
  (warnings (register_all calls initial)
   + size (experiments (register_all calls initial)))%nat
  = length calls
  ∧ experiments (register_all (calls ++ (experiment_type, m) :: later) initial)
      !! experiment_type = Some m.
Proof.
  intros Hlater. split.
  - clear Hlater. induction calls as [|[t m'] calls IH] using rev_ind.
    + reflexivity.
    + rewrite register_all_snoc, warnings_register, length_app. simpl.
      unfold register_experiment. cbn [experiments length].
      case_bool_decide as Hold.
      * destruct Hold as [old Hold].
        rewrite map_size_insert_Some by eauto. simpl. lia.
      * rewrite map_size_insert_None by (by apply eq_None_not_Some).
        simpl. lia.
  - induction later as [|[t m'] later IH] using rev_ind.
    + rewrite register_all_snoc. apply lookup_insert_eq.
    + rewrite fmap_app, not_elem_of_app in Hlater.
      destruct Hlater as [Hlater Ht].
      rewrite app_comm_cons, app_assoc, register_all_snoc.
      unfold register_experiment. simpl.
      rewrite lookup_insert_ne; [by apply IH|].
      intros ->. apply Ht. simpl. apply list_elem_of_here.
Qed.

End ExperimentsProperties.

Lemma register_then_lookup_witness :
  "trust_game" ≠ "prisoners_dilemma"
  ∧ Experiments.get_available_experiments
      (Experiments.register_experiment "prisoners_dilemma" "pd module v2"
         (Experiments.register_experiment "prisoners_dilemma" "pd module"
            Experiments.initial))
      !! "prisoners_dilemma" = Some "pd module v2"
  ∧ size (Experiments.get_available_experiments
            (Experiments.register_experiment "prisoners_dilemma" "pd module v2"
               (Experiments.register_experiment "prisoners_dilemma" "pd module"
                  Experiments.initial)))
    = 1%nat.
Proof.
  assert (Hother : "trust_game" ≠ "prisoners_dilemma") by discriminate.
  destruct (register_then_lookup "prisoners_dilemma" "trust_game"
              "pd module v2"
              (Experiments.register_experiment "prisoners_dilemma" "pd module"
                 Experiments.initial) Hother)
    as (Hnew & _ & Hsize).
  split; [exact Hother|]. split; [exact Hnew|].
  rewrite Hsize. reflexivity.
Defined.

Lemma registrations_overwrite_and_warn_witness :
  ("prisoners_dilemma" ∉ [("trust_game", "tg module")].*1)
  ∧ (Experiments.warnings
       (Experiments.register_all
          [("prisoners_dilemma", "pd module"); ("trust_game", "tg module");
           ("prisoners_dilemma", "pd module v2")] Experiments.initial)
     + size (Experiments.experiments
               (Experiments.register_all
                  [("prisoners_dilemma", "pd module");
                   ("trust_game", "tg module");
                   ("prisoners_dilemma", "pd module v2")]
                  Experiments.initial)))%nat
    = 3%nat
  ∧ Experiments.experiments
      (Experiments.register_all
         ([("trust_game", "old tg module");
           ("prisoners_dilemma", "pd module")]
            ++ ("prisoners_dilemma", "pd module v2")
            :: [("trust_game", "tg module")])
         Experiments.initial)
      !! "prisoners_dilemma" = Some "pd module v2".
Proof.
  assert (Hlater : "prisoners_dilemma" ∉ [("trust_game", "tg module")].*1).
  { simpl. rewrite not_elem_of_cons. split; [discriminate|].
    apply not_elem_of_nil. }
  split; [exact Hlater|]. split.
  - exact (proj1 (registrations_overwrite_and_warn
                    [("prisoners_dilemma", "pd module");
                     ("trust_game", "tg module");
                     ("prisoners_dilemma", "pd module v2")]
                    [("trust_game", "tg module")]
                    "prisoners_dilemma" "pd module v2" Hlater)).
  - exact (proj2 (registrations_overwrite_and_warn
                    [("trust_game", "old tg module");
                     ("prisoners_dilemma", "pd module")]
                    [("trust_game", "tg module")]
                    "prisoners_dilemma" "pd module v2" Hlater)).
Defined.
